(** * Resilient request dispatcher: the clients of [homeworks/resilience]

    A shallow embedding of [strategies.py], [client.py] and [multi_client.py].

    Conventions of the embedding:
    - a [timedelta] and a [datetime] are integers counting microseconds
      (a [datetime] from the Unix epoch); their finite ranges are not modelled;
    - a Python [float] is a rational number ([Q]); rounding of floating point
      operations is not modelled;
    - an [HTTPStatus] is its integer code;
    - durations of waiting are rational numbers of seconds; the event loop
      is taken to have no overhead of its own, so an [await] lasts as long
      as the thing awaited, and a tie between a completion and a timer goes
      to the timer; the difference of [time.monotonic()] that [request]
      books for an attempt is then the duration of that attempt, where a run
      of the program books that and the overhead;
    - [datetime.now()] is an oracle: its readings are numbered through the
      run, and nothing is assumed of them unless stated. *)

From Stdlib Require Import ZArith QArith Qround Qpower List Bool Lia Lqa.
From Stdlib Require Ascii String.
Import ListNotations.

Local Open Scope Z_scope.

(** ** Floats and time *)

Definition Qltb (a b : Q) : bool := negb (Qle_bool b a).

(** [timedelta.total_seconds()] *)
Definition total_seconds (td : Z) : Q := td # 1000000.

(** [round]: to the nearest integer, a tie to the even one. *)
Definition round_half_even (q : Q) : Z :=
  let f := Qfloor q in
  let r := (q - inject_Z f)%Q in
  if Qltb r (1 # 2) then f
  else if Qltb (1 # 2) r then f + 1
  else if Z.even f then f else f + 1.

(** [timedelta(seconds=s)] for a float [s]. *)
Definition timedelta_of_seconds (s : Q) : Z :=
  round_half_even (s * 1000000)%Q.

(** [datetime.min], 0001-01-01T00:00:00, in microseconds from the epoch. *)
Definition datetime_min : Z := -62135596800000000.

(** ** strategies.py *)

Record HedgingStrategy := {
  hedging_delay : Z
}.

Record BackoffStrategy := {
  initial_delay : Z;
  backoff_factor : Q
}.

Record CircuitBreakerStrategy := {
  window_size : nat;          (* [deque] refuses a negative [maxlen] *)
  failure_threshold : Q;
  recovery_timeout : Z
}.

Inductive ExtraStrategy :=
| Backoff (b : BackoffStrategy)
| Hedging (h : HedgingStrategy)
| CircuitBreaker (cb : CircuitBreakerStrategy).

Record ResilienceStrategy := {
  max_retries : Z;
  latency_budget : Z;
  fast_errors : list Z;
  extra_strategy : option ExtraStrategy
}.

Inductive ExhaustedReason :=
| MAX_RETRIES_EXCEEDED
| LATENCY_BUDGET_EXHAUSTED
| NON_RETRYABLE_ERROR
| CIRCUIT_BREAKER_OPEN.

Definition HTTP_OK : Z := 200.

(** ** multi_client.py: ManagedSender *)

Module Breaker.

(** [deque.append] on a deque of bounded length: the item goes to the right
    end, and when the deque got longer than [maxlen] its left end is dropped. *)
Definition deque_append (maxlen : nat) (d : list bool) (x : bool) : list bool :=
  let d' := d ++ [x] in
  if (maxlen <? length d')%nat then tl d' else d'.

Record ManagedSender := {
  _strategy : CircuitBreakerStrategy;
  _last_results : list bool;
  _recover_at : Z;
  _sender : nat
}.

(** [ManagedSender.__init__] *)
Definition init (strategy : CircuitBreakerStrategy) (sender : nat) : ManagedSender :=
  {| _strategy := strategy;
     _last_results := [];
     _recover_at := datetime_min;
     _sender := sender |}.

Definition set_last_results (m : ManagedSender) (h : list bool) : ManagedSender :=
  {| _strategy := _strategy m; _last_results := h;
     _recover_at := _recover_at m; _sender := _sender m |}.

Definition set_recover_at (m : ManagedSender) (t : Z) : ManagedSender :=
  {| _strategy := _strategy m; _last_results := _last_results m;
     _recover_at := t; _sender := _sender m |}.

(** [sum(1 for result in self._last_results if not result)] *)
Definition failures (h : list bool) : nat :=
  fold_right Nat.add 0%nat (map (fun _ => 1%nat) (filter negb h)).

Definition failure_rate (m : ManagedSender) : Q :=
  match _last_results m with
  | [] => 0
  | _ => inject_Z (Z.of_nat (failures (_last_results m)))
         / inject_Z (Z.of_nat (length (_last_results m)))
  end.

Definition record_success (m : ManagedSender) : ManagedSender :=
  set_last_results m
    (deque_append (window_size (_strategy m)) (_last_results m) true).

(** [now] is the reading of [datetime.now()]. *)
Definition record_failure (now : Z) (m : ManagedSender) : ManagedSender :=
  let m1 := set_last_results m
              (deque_append (window_size (_strategy m)) (_last_results m) false) in
  let rate := failure_rate m1 in
  if Qle_bool (failure_threshold (_strategy m1)) rate
  then set_recover_at m1 (now + recovery_timeout (_strategy m1))
  else m1.

(** Whether [record_failure] reads the clock: [datetime.now()] is called
    only when the failure rate after the append has reached the threshold. *)
Definition reads_clock_on_failure (m : ManagedSender) : bool :=
  let m1 := set_last_results m
              (deque_append (window_size (_strategy m)) (_last_results m) false) in
  Qle_bool (failure_threshold (_strategy m1)) (failure_rate m1).

(** [_recover_at] is never [None]: [__init__] sets it to [datetime.min] and
    [record_failure] to a datetime, so the guard of the source never fires. *)
Definition recovery_time (now : Z) (m : ManagedSender) : Z :=
  _recover_at m - now.

Definition is_circuit_open (now : Z) (m : ManagedSender) : bool :=
  now <? _recover_at m.

(** *** CircuitBreakerMultiClient._select_sender *)

Definition Key : Type := bool * Q * Z.

(** The sort key; [t1] and [t2] are the readings of [datetime.now()] made by
    [is_circuit_open] and by [recovery_time]. *)
Definition sort_key (t1 t2 : Z) (m : ManagedSender) : Key :=
  (negb (is_circuit_open t1 m), (- failure_rate m)%Q, recovery_time t2 m).

Definition bool_lt (a b : bool) : bool := negb a && b.

(** [<] on tuples: decided by the first position where they differ. *)
Definition key_lt (a b : Key) : bool :=
  let '(a1, a2, a3) := a in
  let '(b1, b2, b3) := b in
  if negb (Bool.eqb a1 b1) then bool_lt a1 b1
  else if negb (Qeq_bool a2 b2) then Qltb a2 b2
  else a3 <? b3.

(** [sorted(..., key=...)] evaluates the key once per item, in order; the
    [i]-th item reads the clock for the [2i]-th and [2i+1]-th time. *)
Fixpoint decorate (reads : nat -> Z) (i : nat) (ms : list ManagedSender)
  : list (Key * ManagedSender) :=
  match ms with
  | [] => []
  | m :: rest =>
      (sort_key (reads (2 * i)%nat) (reads (2 * i + 1)%nat) m, m)
        :: decorate reads (S i) rest
  end.

(** A stable sort, as [sorted] is: an item goes before the first item of
    the sorted rest that is not smaller than it. *)
Fixpoint insert (x : Key * ManagedSender) (l : list (Key * ManagedSender))
  : list (Key * ManagedSender) :=
  match l with
  | [] => [x]
  | y :: l' => if key_lt (fst y) (fst x) then y :: insert x l' else x :: l
  end.

Fixpoint sort_decorated (l : list (Key * ManagedSender))
  : list (Key * ManagedSender) :=
  match l with
  | [] => []
  | x :: l' => insert x (sort_decorated l')
  end.

Definition sorted (reads : nat -> Z) (ms : list ManagedSender) : list ManagedSender :=
  map snd (sort_decorated (decorate reads 0 ms)).

(** [sorted_senders[-1]]; [None] is the [IndexError] of an empty list. *)
Definition select_managed (reads : nat -> Z) (ms : list ManagedSender)
  : option ManagedSender :=
  match rev (sorted reads ms) with
  | [] => None
  | m :: _ => Some m
  end.

(** The calls a [CircuitBreakerMultiClient] makes on a [ManagedSender]
    over its life; a failure comes with the reading of the clock. *)
Inductive Record_call :=
| Record_success
| Record_failure (now : Z).

Definition record (m : ManagedSender) (call : Record_call) : ManagedSender :=
  match call with
  | Record_success => record_success m
  | Record_failure now => record_failure now m
  end.

Definition records (m : ManagedSender) (calls : list Record_call) : ManagedSender :=
  fold_left record calls m.

End Breaker.

(** ** client.py and multi_client.py: the clients *)

Module Dispatch.
Import Breaker.

(** What a sender answers to one [send]: the status, and the time the
    returned task takes to complete. *)
Record Reply := {
  status : Z;
  latency : Q
}.

(** The class of a client, with the extra strategy its methods read.
    [tests/conftest.py] picks the class from the type of
    [strategy.extra_strategy]; see [create_client], [create_multi_client]. *)
Inductive ClientClass :=
| Client_
| BackoffClient_ (b : BackoffStrategy)
| MultiClient_
| HedgingMultiClient_ (h : HedgingStrategy)
| CircuitBreakerMultiClient_ (cb : CircuitBreakerStrategy).

(** The attributes of a client object. [_senders] is not empty
    ([MultiClient.__init__] reads [senders[0]]): it is kept as its first
    item and the rest, and so is the dictionary [_managed_senders], whose
    values are kept in insertion order, each under the key [_sender] of its
    own. The single-sender classes leave the list attributes unused. *)
Record Client := {
  class : ClientClass;
  strategy : ResilienceStrategy;
  sender : nat;
  senders_first : nat;
  senders_rest : list nat;
  _senders_cycle : nat;
  managed_first : ManagedSender;
  managed_rest : list ManagedSender;
  _current_attempt : Z;
  _time_spent : Z
}.

Definition _senders (c : Client) : list nat := senders_first c :: senders_rest c.

Definition _managed_senders (c : Client) : list ManagedSender :=
  managed_first c :: managed_rest c.

Definition set_sender (c : Client) (s : nat) : Client :=
  {| class := class c; strategy := strategy c; sender := s;
     senders_first := senders_first c; senders_rest := senders_rest c;
     _senders_cycle := _senders_cycle c;
     managed_first := managed_first c; managed_rest := managed_rest c;
     _current_attempt := _current_attempt c; _time_spent := _time_spent c |}.

Definition set_cycle (c : Client) (k : nat) : Client :=
  {| class := class c; strategy := strategy c; sender := sender c;
     senders_first := senders_first c; senders_rest := senders_rest c;
     _senders_cycle := k;
     managed_first := managed_first c; managed_rest := managed_rest c;
     _current_attempt := _current_attempt c; _time_spent := _time_spent c |}.

Definition set_managed (c : Client) (m0 : ManagedSender) (ms : list ManagedSender)
  : Client :=
  {| class := class c; strategy := strategy c; sender := sender c;
     senders_first := senders_first c; senders_rest := senders_rest c;
     _senders_cycle := _senders_cycle c;
     managed_first := m0; managed_rest := ms;
     _current_attempt := _current_attempt c; _time_spent := _time_spent c |}.

Definition set_counters (c : Client) (attempt spent : Z) : Client :=
  {| class := class c; strategy := strategy c; sender := sender c;
     senders_first := senders_first c; senders_rest := senders_rest c;
     _senders_cycle := _senders_cycle c;
     managed_first := managed_first c; managed_rest := managed_rest c;
     _current_attempt := attempt; _time_spent := spent |}.

(** The dictionary comprehension of [CircuitBreakerMultiClient.__init__]:
    one fresh [ManagedSender] per distinct sender, in order of first
    occurrence. *)
Fixpoint dedup (seen : list nat) (l : list nat) : list nat :=
  match l with
  | [] => []
  | s :: r => if existsb (Nat.eqb s) seen then dedup seen r
              else s :: dedup (s :: seen) r
  end.

Definition no_breaker : CircuitBreakerStrategy :=
  {| window_size := 0; failure_threshold := 0; recovery_timeout := 0 |}.

(** [Client.__init__] and [BackoffClient], built as [create_client] of
    [tests/conftest.py] does. *)
Definition create_client (st : ResilienceStrategy) (s : nat) : Client :=
  {| class := match extra_strategy st with
              | Some (Backoff b) => BackoffClient_ b
              | _ => Client_
              end;
     strategy := st; sender := s;
     senders_first := s; senders_rest := [];
     _senders_cycle := 0;
     managed_first := init no_breaker s; managed_rest := [];
     _current_attempt := 0; _time_spent := 0 |}.

(** The multi-sender classes, built as [create_multi_client] does; the
    senders are [s0 :: rest]. *)
Definition create_multi_client (st : ResilienceStrategy) (s0 : nat) (rest : list nat)
  : Client :=
  let cls := match extra_strategy st with
             | Some (Hedging h) => HedgingMultiClient_ h
             | Some (CircuitBreaker cb) => CircuitBreakerMultiClient_ cb
             | _ => MultiClient_
             end in
  let cb := match extra_strategy st with
            | Some (CircuitBreaker cb) => cb
            | _ => no_breaker
            end in
  {| class := cls; strategy := st; sender := s0;
     senders_first := s0; senders_rest := rest;
     _senders_cycle := 0;
     managed_first := init cb s0;
     managed_rest := map (init cb) (dedup [s0] rest);
     _current_attempt := 0; _time_spent := 0 |}.

(** The surroundings of a run: how many sends were issued and how many
    times the clock was read so far. *)
Record World := {
  sent : nat;
  reads : nat
}.

Definition add_sent (w : World) (n : nat) : World :=
  {| sent := (sent w + n)%nat; reads := reads w |}.

Definition add_reads (w : World) (n : nat) : World :=
  {| sent := sent w; reads := (reads w + n)%nat |}.

(** What an attempt leaves alone. *)
Definition same_call (c c' : Client) : Prop :=
  class c' = class c /\ strategy c' = strategy c /\
  senders_first c' = senders_first c /\ senders_rest c' = senders_rest c /\
  _current_attempt c' = _current_attempt c /\ _time_spent c' = _time_spent c.

Definition hedges (c : Client) : Prop :=
  exists h, class c = HedgingMultiClient_ h.

Inductive Event :=
| EvWait (delay : Q)      (* a call of [BackoffClient._wait] *)
| EvSend (s : nat).       (* a call of [send] on sender [s] *)

Definition is_send (e : Event) : bool :=
  match e with EvSend _ => true | EvWait _ => false end.

Definition sends (evs : list Event) : nat := length (filter is_send evs).

(** How [_make_request] under [asyncio.wait_for] ends. *)
Inductive Outcome :=
| Completed (result : Z)
| TimedOut                 (* [asyncio.TimeoutError] *)
| BreakerOpen.             (* [ResilienceStrategyExhausted(CIRCUIT_BREAKER_OPEN)] *)

Inductive Result :=
| Returned (result : Z)
| Raised (reason : ExhaustedReason).

(** One pass through the body of [Client.request]: the client and the
    world it started from, what it did and how its [_make_request] ended. *)
Record Attempt := {
  a_client : Client;
  a_world : World;
  a_events : list Event;
  a_outcome : Outcome
}.

Record Run := {
  r_result : Result;
  r_client : Client;
  r_world : World;
  r_log : list Attempt
}.

Definition Qmax0 (q : Q) : Q := if Qle_bool 0 q then q else 0%Q.

(** [asyncio.wait(tasks, return_when=FIRST_COMPLETED)] followed by the
    [return] on the first task of [done]: the task that completes earliest.
    Of tasks that complete together the source takes the one that the set
    [done] yields first; here it is the one listed first in [tasks]. *)
Fixpoint first_completed (best : Q * Z) (tasks : list (Q * Z)) : Q * Z :=
  match tasks with
  | [] => best
  | t :: rest =>
      if Qltb (fst t) (fst best) then first_completed t rest
      else first_completed best rest
  end.

(** The replies to sends issued one after the other from index [k] on. *)
Fixpoint fan_out {Payload : Type} (send : Payload -> nat -> nat -> Reply)
  (payload : Payload) (k : nat) (ss : list nat) : list Reply :=
  match ss with
  | [] => []
  | s :: rest => send payload s k :: fan_out send payload (S k) rest
  end.

Section Request.

Variable Payload : Type.

(** [ISender.send]: [send payload s k] is the reply of sender [s] when its
    [send] is the [k]-th one of the run. *)
Variable send : Payload -> nat -> nat -> Reply.

(** [datetime.now()]: [wall k] is the [k]-th reading of the run. *)
Variable wall : nat -> Z.

Variable payload : Payload.

(** [managed_sender.record_...()] on [self._managed_senders[s]]. *)
Definition update_managed (c : Client) (s : nat) (f : ManagedSender -> ManagedSender)
  : Client :=
  let upd m := if (_sender m =? s)%nat then f m else m in
  set_managed c (upd (managed_first c)) (map upd (managed_rest c)).

(** [sorted_senders[-1]] of [CircuitBreakerMultiClient._select_sender]; the
    dictionary is not empty, so the selection is never [None]. *)
Definition select_best (c : Client) (w : World) : ManagedSender :=
  match select_managed (fun i => wall (reads w + i)) (_managed_senders c) with
  | Some m => m
  | None => managed_first c
  end.

(** [_select_sender] of each class. *)
Definition _select_sender (c : Client) (w : World) : nat * Client * World :=
  match class c with
  | Client_ | BackoffClient_ _ => (sender c, c, w)
  | MultiClient_ | HedgingMultiClient_ _ =>
      let s := nth (_senders_cycle c mod length (_senders c)) (_senders c)
                   (senders_first c) in
      (s, set_sender (set_cycle c (S (_senders_cycle c))) s, w)
  | CircuitBreakerMultiClient_ _ =>
      let s := _sender (select_best c w) in
      (s, set_sender c s, add_reads w (2 * length (_managed_senders c)))
  end.

(** [Client._make_request] under a [wait_for] that fires [timeout] seconds
    after the attempt began, [used] seconds of which have passed. The
    results are the outcome, the client, the world, the events and the
    duration of the attempt. *)
Definition Client_make_request (c : Client) (w : World) (timeout used : Q)
  : Outcome * Client * World * list Event * Q :=
  let '(s, c1, w1) := _select_sender c w in
  let r := send payload s (sent w1) in
  let w2 := add_sent w1 1 in
  let total := (used + latency r)%Q in
  if Qltb total timeout
  then (Completed (status r), c1, w2, [EvSend s], total)
  else (TimedOut, c1, w2, [EvSend s], timeout).

(** [BackoffClient._execute_backoff]: the argument of [_wait]. *)
Definition backoff_delay (b : BackoffStrategy) (current_attempt : Z) : Q :=
  (total_seconds (initial_delay b) * backoff_factor b ^ (current_attempt - 1))%Q.

Definition Backoff_make_request (b : BackoffStrategy) (c : Client) (w : World)
  (timeout : Q) : Outcome * Client * World * list Event * Q :=
  if 0 <? _current_attempt c then
    let delay := backoff_delay b (_current_attempt c) in
    let slept := Qmax0 delay in          (* [asyncio.sleep] *)
    if Qltb slept timeout then
      let '(o, c1, w1, evs, d) := Client_make_request c w timeout slept in
      (o, c1, w1, EvWait delay :: evs, d)
    else (TimedOut, c, w, [EvWait delay], timeout)
  else Client_make_request c w timeout 0.

Definition Hedging_make_request (h : HedgingStrategy) (c : Client) (w : World)
  (timeout : Q) : Outcome * Client * World * list Event * Q :=
  let '(main_sender, c1, w1) := _select_sender c w in
  let r := send payload main_sender (sent w1) in
  let w2 := add_sent w1 1 in
  let delay := total_seconds (hedging_delay h) in
  if Qltb (latency r) delay then
    (* the inner [wait_for] returns the result of [main_task] *)
    if Qltb (latency r) timeout
    then (Completed (status r), c1, w2, [EvSend main_sender], latency r)
    else (TimedOut, c1, w2, [EvSend main_sender], timeout)
  else
    let fired := Qmax0 delay in
    if Qltb fired timeout then
      let other_senders :=
        filter (fun s => negb (s =? main_sender)%nat) (_senders c1) in
      let replies := fan_out send payload (sent w2) other_senders in
      let w3 := add_sent w2 (length other_senders) in
      let tasks := map (fun r' => ((fired + latency r')%Q, status r')) replies in
      let '(t, result) := first_completed (latency r, status r) tasks in
      let evs := EvSend main_sender :: map EvSend other_senders in
      if Qltb t timeout
      then (Completed result, c1, w3, evs, t)
      else (TimedOut, c1, w3, evs, timeout)
    else (TimedOut, c1, w2, [EvSend main_sender], timeout).

Definition CircuitBreaker_make_request (c : Client) (w : World) (timeout : Q)
  : Outcome * Client * World * list Event * Q :=
  let managed_sender := select_best c w in
  let '(s, c1, w1) := _select_sender c w in
  let w2 := add_reads w1 1 in
  if is_circuit_open (wall (reads w1)) managed_sender
  then (BreakerOpen, c1, w2, [], 0%Q)
  else
    (* [super()._make_request] selects a sender once more *)
    let '(o, c2, w3, evs, d) := Client_make_request c1 w2 timeout 0 in
    match o with
    | Completed result =>
        if result =? HTTP_OK
        then (o, update_managed c2 s record_success, w3, evs, d)
        else (o, update_managed c2 s (record_failure (wall (reads w3))),
              (if reads_clock_on_failure managed_sender
               then add_reads w3 1 else w3),
              evs, d)
    | _ => (o, c2, w3, evs, d)
    end.

(** [self._make_request(payload)], by the class of the client. *)
Definition _make_request (c : Client) (w : World) (timeout : Q)
  : Outcome * Client * World * list Event * Q :=
  match class c with
  | Client_ | MultiClient_ => Client_make_request c w timeout 0
  | BackoffClient_ b => Backoff_make_request b c w timeout
  | HedgingMultiClient_ h => Hedging_make_request h c w timeout
  | CircuitBreakerMultiClient_ _ => CircuitBreaker_make_request c w timeout
  end.

Definition raise (reason : ExhaustedReason) (c : Client) (w : World)
  (log : list Attempt) : Run :=
  {| r_result := Raised reason; r_client := c; r_world := w; r_log := log |}.

Definition cons_log (a : Attempt) (run : Run) : Run :=
  {| r_result := r_result run; r_client := r_client run;
     r_world := r_world run; r_log := a :: r_log run |}.

(** [Client.request]. The method calls itself to retry; here each call
    takes one unit of [fuel], and [None] means that the fuel ran out. The
    depth of the recursion is not bounded otherwise. *)
Fixpoint request_loop (fuel : nat) (c : Client) (w : World) : option Run :=
  match fuel with
  | O => None
  | S fuel' =>
      if max_retries (strategy c) <=? _current_attempt c
      then Some (raise MAX_RETRIES_EXCEEDED c w [])
      else
        let remaining_budget := latency_budget (strategy c) - _time_spent c in
        if remaining_budget <=? 0
        then Some (raise LATENCY_BUDGET_EXHAUSTED c w [])
        else
          let '(o, c1, w1, evs, d) :=
            _make_request c w (total_seconds remaining_budget) in
          let a := {| a_client := c; a_world := w;
                      a_events := evs; a_outcome := o |} in
          match o with
          | TimedOut => Some (raise LATENCY_BUDGET_EXHAUSTED c1 w1 [a])
          | BreakerOpen => Some (raise CIRCUIT_BREAKER_OPEN c1 w1 [a])
          | Completed result =>
              if existsb (Z.eqb result) (fast_errors (strategy c))
              then Some (raise NON_RETRYABLE_ERROR c1 w1 [a])
              else if result =? HTTP_OK
              then Some {| r_result := Returned result; r_client := c1;
                           r_world := w1; r_log := [a] |}
              else
                let c2 := set_counters c1 (_current_attempt c1 + 1)
                            (_time_spent c1 + timedelta_of_seconds d) in
                option_map (cons_log a) (request_loop fuel' c2 w1)
          end
  end.

(** [await client.request(payload)]: one call more than the attempts left. *)
Definition request (c : Client) (w : World) : option Run :=
  request_loop (S (Z.to_nat (max_retries (strategy c) - _current_attempt c))) c w.

(** All the events of a run, in order. *)
Definition run_events (run : Run) : list Event :=
  flat_map a_events (r_log run).

(** [remaining_budget] *)
Definition remaining (c : Client) : Z :=
  latency_budget (strategy c) - _time_spent c.

Definition attempt (c : Client) (w : World) (evs : list Event) (o : Outcome)
  : Attempt :=
  {| a_client := c; a_world := w; a_events := evs; a_outcome := o |}.

Definition is_fast (c : Client) (result : Z) : bool :=
  existsb (Z.eqb result) (fast_errors (strategy c)).

(** Every reply is a failure that the strategy lets the client retry. *)
Definition all_fail (c : Client) : Prop :=
  forall s k, status (send payload s k) <> HTTP_OK /\
              is_fast c (status (send payload s k)) = false.

(** [Client.request] as a relation between the state a call starts from
    and the run it makes: one rule per way through the body of the method. *)
Inductive runs : Client -> World -> Run -> Prop :=
| runs_max_retries c w :
    max_retries (strategy c) <= _current_attempt c ->
    runs c w (raise MAX_RETRIES_EXCEEDED c w [])
| runs_no_budget c w :
    _current_attempt c < max_retries (strategy c) ->
    remaining c <= 0 ->
    runs c w (raise LATENCY_BUDGET_EXHAUSTED c w [])
| runs_timeout c w c1 w1 evs d :
    _current_attempt c < max_retries (strategy c) ->
    0 < remaining c ->
    _make_request c w (total_seconds (remaining c)) = (TimedOut, c1, w1, evs, d) ->
    runs c w (raise LATENCY_BUDGET_EXHAUSTED c1 w1 [attempt c w evs TimedOut])
| runs_breaker_open c w c1 w1 evs d :
    _current_attempt c < max_retries (strategy c) ->
    0 < remaining c ->
    _make_request c w (total_seconds (remaining c)) = (BreakerOpen, c1, w1, evs, d) ->
    runs c w (raise CIRCUIT_BREAKER_OPEN c1 w1 [attempt c w evs BreakerOpen])
| runs_fast_error c w c1 w1 evs d result :
    _current_attempt c < max_retries (strategy c) ->
    0 < remaining c ->
    _make_request c w (total_seconds (remaining c))
      = (Completed result, c1, w1, evs, d) ->
    is_fast c result = true ->
    runs c w (raise NON_RETRYABLE_ERROR c1 w1 [attempt c w evs (Completed result)])
| runs_ok c w c1 w1 evs d result :
    _current_attempt c < max_retries (strategy c) ->
    0 < remaining c ->
    _make_request c w (total_seconds (remaining c))
      = (Completed result, c1, w1, evs, d) ->
    is_fast c result = false ->
    result = HTTP_OK ->
    runs c w {| r_result := Returned result; r_client := c1; r_world := w1;
                r_log := [attempt c w evs (Completed result)] |}
| runs_retry c w c1 w1 evs d result run :
    _current_attempt c < max_retries (strategy c) ->
    0 < remaining c ->
    _make_request c w (total_seconds (remaining c))
      = (Completed result, c1, w1, evs, d) ->
    is_fast c result = false ->
    result <> HTTP_OK ->
    runs (set_counters c1 (_current_attempt c1 + 1)
            (_time_spent c1 + timedelta_of_seconds d)) w1 run ->
    runs c w (cons_log (attempt c w evs (Completed result)) run).

End Request.

End Dispatch.

(** ** Scenarios

    Concrete senders, clocks and strategies, in the manner of
    [tests/conftest.py] and of the tests. *)

Module Scenarios.
Import Breaker Dispatch.

(** [TestSender(outcome, delay)], the same for every sender. *)
Definition reply_after (outcome : Z) (delay : Q) : unit -> nat -> nat -> Reply :=
  fun _ _ _ => {| status := outcome; latency := delay |}.

(** One [TestSender(outcome, delay)] per sender, by position. *)
Definition replies (l : list (Z * Q)) : unit -> nat -> nat -> Reply :=
  fun _ s _ => {| status := fst (nth s l (0, 0%Q)); latency := snd (nth s l (0, 0%Q)) |}.

(** A clock that stands still, and one that moves on by a microsecond
    between its 7th and its 8th reading. *)
Definition still : nat -> Z := fun _ => 0.

Definition ticks_once (k : nat) : Z := if (k <? 7)%nat then 0 else 1.

Definition fresh : World := {| sent := 0; reads := 0 |}.

Definition breaker : CircuitBreakerStrategy :=
  {| window_size := 4; failure_threshold := 1 # 2; recovery_timeout := 2000000 |}.

Definition plain (retries budget : Z) (fast : list Z) : ResilienceStrategy :=
  {| max_retries := retries; latency_budget := budget;
     fast_errors := fast; extra_strategy := None |}.

Definition with_extra (retries budget : Z) (fast : list Z) (e : ExtraStrategy)
  : ResilienceStrategy :=
  {| max_retries := retries; latency_budget := budget;
     fast_errors := fast; extra_strategy := Some e |}.

Definition backoff_100ms : BackoffStrategy :=
  {| initial_delay := 100000; backoff_factor := 2 |}.

Definition hedge_1s : HedgingStrategy := {| hedging_delay := 1000000 |}.

Definition hedge_50ms : HedgingStrategy := {| hedging_delay := 50000 |}.

(** What a test can see of a call: how it ended, and the events and the
    outcome of each attempt. *)
Definition observed (r : option Run)
  : option (Result * list (list Event * Outcome)) :=
  option_map (fun run => (r_result run,
                          map (fun a => (a_events a, a_outcome a)) (r_log run))) r.

Definition histories (r : option Run) : option (list (nat * list bool)) :=
  option_map (fun run => map (fun m => (_sender m, _last_results m))
                             (_managed_senders (r_client run))) r.

(** The arguments of [_wait] through a call, in lowest terms. *)
Definition waited (r : option Run) : option (list Q) :=
  option_map (fun run =>
                flat_map (fun e => match e with
                                   | EvWait d => [Qred d]
                                   | EvSend _ => []
                                   end) (run_events run)) r.

(** A clock that moves on by a microsecond at every reading. *)
Definition ticking : nat -> Z := fun k => Z.of_nat k.

(** Two senders that failed once each, a second apart. *)
Definition failed_at_0 : ManagedSender := record_failure 0 (init breaker 0).

Definition failed_at_1s : ManagedSender := record_failure 1000000 (init breaker 1).

End Scenarios.

(** ** cotomorphism/src/main.py: the backend that can be degraded

    The handlers of the routes, each run as a whole: every access to
    [degraded] is under the lock. What [print] writes is left out. The file
    system and [mimetypes.guess_type] are what [load_image] is given. *)

Module Backend.
Import String.
Local Open Scope string_scope.

(** The globals of the module. *)
Record Globals := {
  degraded : bool;
  IMAGE_BYTES : option string;
  IMAGE_MIMETYPE : string
}.

(** The globals when the module has been loaded. *)
Definition loaded : Globals :=
  {| degraded := false; IMAGE_BYTES := None;
     IMAGE_MIMETYPE := "application/octet-stream" |}.

Definition set_degraded (g : Globals) (b : bool) : Globals :=
  {| degraded := b; IMAGE_BYTES := IMAGE_BYTES g;
     IMAGE_MIMETYPE := IMAGE_MIMETYPE g |}.

Inductive Body :=
| Text (s : string)
| Bytes (b : option string).

(** A response; no [mimetype] stands for the default of Flask. *)
Record Response := {
  body : Body;
  mimetype : option string;
  code : Z
}.

Definition newline : string := String (Ascii.ascii_of_nat 10) EmptyString.

(** [str(degraded)] *)
Definition str_bool (b : bool) : string := if b then "True" else "False".

Definition cat (g : Globals) : Response :=
  if degraded g
  then {| body := Text "Internal error in backend"; mimetype := None; code := 503 |}
  else {| body := Bytes (IMAGE_BYTES g);
          mimetype := Some (IMAGE_MIMETYPE g); code := 200 |}.

Definition degrade_on (g : Globals) : Globals * Response :=
  let g' := set_degraded g true in
  (g', {| body := Text ("Degraded mode set to: " ++ str_bool (degraded g') ++ newline);
          mimetype := None; code := 200 |}).

Definition degrade_off (g : Globals) : Globals * Response :=
  let g' := set_degraded g false in
  (g', {| body := Text ("Degraded mode set to: " ++ str_bool (degraded g') ++ newline);
          mimetype := None; code := 200 |}).

Definition index : Response :=
  {| body := Text ("Cotomorphism backend is running. Use /get to fetch image and /degrade/on or /degrade/off to toggle degradation."
                   ++ newline);
     mimetype := None; code := 200 |}.

(** [load_image(path)]: [file] is the content of the file at [path], if
    there is a file, and [mtype] what [mimetypes.guess_type(path)] guesses.
    [None] is the [FileNotFoundError]. *)
Definition load_image (g : Globals) (file : option string) (mtype : option string)
  : option Globals :=
  match file with
  | None => None
  | Some content =>
      Some {| degraded := degraded g;
              IMAGE_BYTES := Some content;
              IMAGE_MIMETYPE :=
                match mtype with
                | Some (String a m) => String a m
                | _ => IMAGE_MIMETYPE g          (* [None] and [''] are false *)
                end |}
  end.

(** The routes. *)
Inductive Route :=
| route_get
| route_degrade_on
| route_degrade_off
| route_index.

Definition handle (g : Globals) (r : Route) : Globals * Response :=
  match r with
  | route_get => (g, cat g)
  | route_degrade_on => degrade_on g
  | route_degrade_off => degrade_off g
  | route_index => (g, index)
  end.

(** Requests served one after the other. *)
Definition serve (g : Globals) (rs : list Route) : Globals :=
  fold_left (fun g r => fst (handle g r)) rs g.

Definition switches (r : Route) : bool :=
  match r with
  | route_degrade_on | route_degrade_off => true
  | _ => false
  end.

End Backend.

(** ** Further notions

    What the properties of the second part speak of. *)

Module Notions.
Import Breaker Dispatch.

(** The entry a call puts into the history. *)
Definition entry_of (call : Record_call) : bool :=
  match call with
  | Record_success => true
  | Record_failure _ => false
  end.

(** The last [n] items of a list. *)
Definition lastn {A : Type} (n : nat) (l : list A) : list A :=
  skipn (length l - n) l.

(** The history of every sender fits its window. *)
Definition bounded (c : Client) : Prop :=
  Forall (fun m => (length (_last_results m) <= window_size (_strategy m))%nat)
         (_managed_senders c).

(** An attempt after which [request] calls itself: completed, not with 200
    and not with a status of [fast_errors]. *)
Definition retried (c : Client) (a : Attempt) : bool :=
  match a_outcome a with
  | Completed result => negb (is_fast c result) && negb (result =? HTTP_OK)
  | _ => false
  end.

(** The sender that [next(self._senders_cycle)] yields at position [k]. *)
Definition cycle_at (c : Client) (k : nat) : nat :=
  nth (k mod length (_senders c)) (_senders c) (senders_first c).

(** The clock reads [now] at the [k] readings from [w] on. *)
Definition stands_still (wall : nat -> Z) (w : World) (k : nat) (now : Z) : Prop :=
  forall i, (i < k)%nat -> wall (reads w + i)%nat = now.

(** A call of a method on the [ManagedSender] of sender [s], seen from the
    values of the dictionary. *)
Definition on_sender (s : nat) (f : ManagedSender -> ManagedSender)
  (m : ManagedSender) : ManagedSender :=
  if (_sender m =? s)%nat then f m else m.

(** What a call keeps of the dictionary. *)
Definition dictionary_kept (c0 c : Client) : Prop :=
  map _sender (_managed_senders c) = map _sender (_managed_senders c0) /\
  map _strategy (_managed_senders c) = map _strategy (_managed_senders c0) /\
  bounded c.

(** The classes that take their senders from [itertools.cycle]. *)
Definition rotates (c : Client) : Prop :=
  class c = MultiClient_ \/ hedges c.

(** No sender answers before it was asked. *)
Definition punctual {Payload : Type} (send : Payload -> nat -> nat -> Reply)
  (payload : Payload) : Prop :=
  forall s k, (0 <= latency (send payload s k))%Q.

End Notions.

(** * Properties *)

Lemma Qltb_lt (a b : Q) : Qltb a b = true <-> (a < b)%Q.
Proof.
  unfold Qltb. rewrite negb_true_iff.
  split; intro H.
  - apply Qnot_le_lt. intro Hle. apply Qle_bool_iff in Hle. congruence.
  - destruct (Qle_bool b a) eqn:E; [|reflexivity].
    apply Qle_bool_iff in E. exfalso. apply (Qlt_not_le _ _ H E).
Qed.

(** ** The circuit breaker of one sender *)

Section BreakerProperties.
Import Breaker.

Lemma failures_count (h : list bool) :
  failures h = count_occ Bool.bool_dec h false.
Proof.
  unfold failures.
  induction h as [|x h IH]; simpl; [reflexivity|].
  destruct x; simpl.
  - destruct (bool_dec true false); [discriminate|]. exact IH.
  - destruct (bool_dec false false); [|congruence]. now rewrite IH.
Qed.

Lemma deque_append_room (w : nat) (h : list bool) (x : bool) :
  (length h < w)%nat -> deque_append w h x = h ++ [x].
Proof.
  intro H. unfold deque_append.
  rewrite length_app, Nat.add_1_r.
  destruct (Nat.ltb_spec w (S (length h))); [lia|reflexivity].
Qed.

Lemma deque_append_full (w : nat) (h : list bool) (x : bool) :
  (1 <= w)%nat -> length h = w -> deque_append w h x = tl h ++ [x].
Proof.
  intros Hw H. unfold deque_append.
  rewrite length_app, Nat.add_1_r.
  destruct (Nat.ltb_spec w (S (length h))); [|lia].
  destruct h; simpl in *; [lia|reflexivity].
Qed.

Lemma deque_append_length (w : nat) (h : list bool) (x : bool) :
  (length h <= w)%nat -> (length (deque_append w h x) <= w)%nat.
Proof.
  intro H. unfold deque_append.
  rewrite length_app, Nat.add_1_r.
  destruct (Nat.ltb_spec w (S (length h))).
  - destruct h; simpl in *; [lia|]. rewrite length_app. simpl. lia.
  - rewrite length_app. simpl. lia.
Qed.

Lemma record_strategy (m : ManagedSender) (call : Record_call) :
  _strategy (record m call) = _strategy m.
Proof.
  destruct call; simpl; [reflexivity|].
  unfold record_failure.
  destruct (Qle_bool _ _); reflexivity.
Qed.

Lemma record_window (m : ManagedSender) (call : Record_call) :
  (length (_last_results m) <= window_size (_strategy m))%nat ->
  (length (_last_results (record m call)) <= window_size (_strategy m))%nat.
Proof.
  intro H. destruct call; simpl.
  - now apply deque_append_length.
  - unfold record_failure.
    destruct (Qle_bool _ _); simpl; now apply deque_append_length.
Qed.

Lemma records_window (calls : list Record_call) (m : ManagedSender) :
  (length (_last_results m) <= window_size (_strategy m))%nat ->
  _strategy (records m calls) = _strategy m /\
  (length (_last_results (records m calls)) <= window_size (_strategy m))%nat.
Proof.
  revert m. induction calls as [|call calls IH]; intros m H; simpl.
  - split; [reflexivity|exact H].
  - destruct (IH (record m call)) as [E L].
    + rewrite record_strategy. now apply record_window.
    + rewrite record_strategy in E, L. split; assumption.
Qed.

Lemma failure_rate_count (m : ManagedSender) :
  _last_results m <> [] ->
  failure_rate m =
    (inject_Z (Z.of_nat (count_occ Bool.bool_dec (_last_results m) false))
     / inject_Z (Z.of_nat (length (_last_results m))))%Q.
Proof.
  intro H. unfold failure_rate.
  destruct (_last_results m) eqn:E; [congruence|].
  now rewrite failures_count.
Qed.

(** C6: on a sender whose window holds at least one entry, [record_failure]
    puts [false] at the end of the history, dropping the oldest entry when
    the history was full, and moves [_recover_at] to [now + recovery_timeout]
    when the failure rate after the append reaches the threshold and leaves
    it alone otherwise; [record_success] puts [true] at the end in the same
    way and leaves [_recover_at] alone. *)
Theorem record_appends_and_opens (now : Z) (m : ManagedSender) :
  (1 <= window_size (_strategy m))%nat ->
  (length (_last_results m) <= window_size (_strategy m))%nat ->
  let keep := if (length (_last_results m) <? window_size (_strategy m))%nat
              then _last_results m else tl (_last_results m) in
  let m' := record_failure now m in
  _last_results m' = keep ++ [false] /\
  ((failure_threshold (_strategy m) <= failure_rate m')%Q ->
     _recover_at m' = now + recovery_timeout (_strategy m)) /\
  (~ (failure_threshold (_strategy m) <= failure_rate m')%Q ->
     _recover_at m' = _recover_at m) /\
  _last_results (record_success m) = keep ++ [true] /\
  _recover_at (record_success m) = _recover_at m.
Proof.
  intros Hw Hlen keep m'.
  assert (Happ : forall x, deque_append (window_size (_strategy m))
                             (_last_results m) x = keep ++ [x]).
  { intro x. unfold keep.
    destruct (Nat.ltb_spec (length (_last_results m)) (window_size (_strategy m))).
    - now apply deque_append_room.
    - apply deque_append_full; lia. }
  assert (Hres : _last_results m' = keep ++ [false]).
  { unfold m', record_failure.
    destruct (Qle_bool _ _); simpl; apply Happ. }
  assert (Hrate : failure_rate m' =
                  failure_rate (set_last_results m
                    (deque_append (window_size (_strategy m)) (_last_results m) false))).
  { unfold failure_rate. rewrite Hres. simpl. now rewrite Happ. }
  split; [exact Hres|].
  split; [|split; [|split]].
  - intro Hge. rewrite Hrate in Hge. apply Qle_bool_iff in Hge.
    unfold m', record_failure. simpl in *. now rewrite Hge.
  - intro Hlt. rewrite Hrate in Hlt.
    unfold m', record_failure.
    destruct (Qle_bool _ _) eqn:E; [|reflexivity].
    exfalso. apply Hlt. now apply Qle_bool_iff.
  - simpl. apply Happ.
  - reflexivity.
Qed.

(** C7, as the code has it: [recovery_time] is the signed difference
    [_recover_at - now]; it agrees with [max(0, _recover_at - now)], and is
    not negative, exactly when [now] has not passed [_recover_at]. *)
Theorem recovery_time_signed (now : Z) (m : ManagedSender) :
  recovery_time now m = _recover_at m - now /\
  (recovery_time now m = Z.max 0 (_recover_at m - now) <-> now <= _recover_at m) /\
  (recovery_time now m < 0 <-> _recover_at m < now).
Proof.
  unfold recovery_time. repeat split; intros; lia.
Qed.

(** C8: whatever calls were made on a sender since its creation, its
    history is no longer than the window, a further call on a full history
    drops its oldest entry, and the failure rate is the number of [false]
    entries over the length of the history, and 0 for an empty history. *)
Theorem history_bounded_and_rate (cb : CircuitBreakerStrategy) (s : nat)
  (calls : list Record_call) :
  let m := records (init cb s) calls in
  (length (_last_results m) <= window_size cb)%nat /\
  (forall call,
     (1 <= window_size cb)%nat ->
     length (_last_results m) = window_size cb ->
     _last_results (record m call)
       = tl (_last_results m)
         ++ [match call with Record_success => true | Record_failure _ => false end]) /\
  (_last_results m = [] -> failure_rate m = 0%Q) /\
  (_last_results m <> [] ->
     failure_rate m =
       (inject_Z (Z.of_nat (count_occ Bool.bool_dec (_last_results m) false))
        / inject_Z (Z.of_nat (length (_last_results m))))%Q).
Proof.
  intro m.
  destruct (records_window calls (init cb s)) as [E L]; [simpl; lia|].
  fold m in E, L. simpl in E, L.
  split; [exact L|]. split; [|split].
  - intros call Hw Hfull. destruct call; simpl.
    + rewrite E. now apply deque_append_full.
    + unfold record_failure. rewrite E.
      destruct (Qle_bool _ _); simpl; now apply deque_append_full.
  - intro E0. unfold failure_rate. now rewrite E0.
  - apply failure_rate_count.
Qed.


(** *** The order of the selection *)

Lemma key_lt_spec (a b : Key) :
  key_lt a b = true <->
  (fst (fst a) = false /\ fst (fst b) = true) \/
  (fst (fst a) = fst (fst b) /\ (snd (fst a) < snd (fst b))%Q) \/
  (fst (fst a) = fst (fst b) /\ (snd (fst a) == snd (fst b))%Q /\ snd a < snd b).
Proof.
  destruct a as [[a1 a2] a3], b as [[b1 b2] b3]. unfold key_lt. simpl.
  assert (Hsame : (if negb (Qeq_bool a2 b2) then Qltb a2 b2 else a3 <? b3) = true
                  <-> (a2 < b2)%Q \/ ((a2 == b2)%Q /\ a3 < b3)).
  { destruct (Qeq_bool a2 b2) eqn:Eq; simpl.
    - apply Qeq_bool_iff in Eq. rewrite Z.ltb_lt. split.
      + intro L. right. now split.
      + intros [L|[_ L]]; [exfalso; lra|exact L].
    - apply Qeq_bool_neq in Eq. rewrite Qltb_lt. split.
      + intro L. now left.
      + intros [L|[E _]]; [exact L|contradiction]. }
  destruct a1, b1; simpl.
  - rewrite Hsame. split.
    + intros [L|[E L]]; [right; left; now split|right; right; now repeat split].
    + intros [[E _]|[[_ L]|[_ [E L]]]]; [discriminate|now left|right; now split].
  - split; [discriminate|].
    intros [[E _]|[[E _]|[E _]]]; discriminate.
  - split; [intros _; left; now split|reflexivity].
  - rewrite Hsame. split.
    + intros [L|[E L]]; [right; left; now split|right; right; now repeat split].
    + intros [[_ E]|[[_ L]|[_ [E L]]]]; [discriminate|now left|right; now split].
Qed.

Lemma key_lt_false (a b : Key) :
  key_lt a b = false <->
  (fst (fst a) = false -> fst (fst b) = false) /\
  (fst (fst a) = fst (fst b) -> (snd (fst b) <= snd (fst a))%Q) /\
  (fst (fst a) = fst (fst b) -> (snd (fst a) == snd (fst b))%Q -> snd b <= snd a).
Proof.
  rewrite <- not_true_iff_false, key_lt_spec.
  destruct a as [[a1 a2] a3], b as [[b1 b2] b3]. simpl.
  split.
  - intro H. repeat split.
    + intro E. destruct b1; [exfalso; apply H; now left|reflexivity].
    + intro E. apply Qnot_lt_le. intro L. apply H. right. left. now split.
    + intros E Eq. apply Z.nlt_ge. intro L. apply H. right. right. now repeat split.
  - intros (H1 & H2 & H3) [[E1 E2]|[[E L]|[E [Eq L]]]].
    + rewrite (H1 E1) in E2. discriminate.
    + specialize (H2 E). lra.
    + specialize (H3 E Eq). lia.
Qed.

Lemma key_lt_asym (a b : Key) : key_lt a b = true -> key_lt b a = false.
Proof.
  rewrite key_lt_spec, key_lt_false.
  destruct a as [[a1 a2] a3], b as [[b1 b2] b3]. simpl.
  intros [[E1 E2]|[[E L]|[E [Eq L]]]]; repeat split; intros;
    try congruence; try lra; try lia.
Qed.

Lemma key_lt_irrefl (a : Key) : key_lt a a = false.
Proof.
  rewrite key_lt_false. repeat split; intros; try assumption; try lra; lia.
Qed.

Lemma key_ge_trans (a b c : Key) :
  key_lt a b = false -> key_lt b c = false -> key_lt a c = false.
Proof.
  rewrite !key_lt_false.
  destruct a as [[a1 a2] a3], b as [[b1 b2] b3], c as [[c1 c2] c3]. simpl.
  intros (A1 & A2 & A3) (B1 & B2 & B3).
  destruct a1, b1, c1; repeat split; intros;
    try discriminate; try reflexivity;
    try (specialize (A1 eq_refl); discriminate);
    try (specialize (B1 eq_refl); discriminate);
    try (specialize (A2 eq_refl); specialize (B2 eq_refl); lra);
    try (specialize (A2 eq_refl); specialize (B2 eq_refl);
         assert (a2 == b2)%Q by lra; assert (b2 == c2)%Q by lra;
         specialize (A3 eq_refl ltac:(assumption));
         specialize (B3 eq_refl ltac:(assumption)); lia).
Qed.

Lemma in_insert x y l : In y (insert x l) <-> y = x \/ In y l.
Proof.
  induction l as [|z l IH]; simpl.
  - split; intros [H|H]; auto.
  - destruct (key_lt (fst z) (fst x)); simpl; rewrite ?IH; intuition congruence.
Qed.

Lemma in_sort_decorated y l : In y (sort_decorated l) <-> In y l.
Proof.
  induction l as [|x l IH]; simpl; [reflexivity|].
  rewrite in_insert, IH. intuition congruence.
Qed.

Lemma insert_not_nil x l : insert x l <> [].
Proof.
  destruct l; simpl; [|destruct (key_lt _ _)]; intro H; discriminate.
Qed.

Lemma last_cons (A : Type) (x : A) (l : list A) (d : A) :
  l <> [] -> last (x :: l) d = last l d.
Proof. destruct l; [congruence|reflexivity]. Qed.

Lemma last_insert x l d :
  (last (insert x l) d = x /\ forall y, In y l -> key_lt (fst y) (fst x) = true) \/
  (last (insert x l) d = last l d /\
   exists y, In y l /\ key_lt (fst y) (fst x) = false).
Proof.
  induction l as [|z l IH].
  - left. split; [reflexivity|intros y []].
  - cbn [insert]. destruct (key_lt (fst z) (fst x)) eqn:E.
    + rewrite last_cons by apply insert_not_nil.
      destruct IH as [[Hl Hall]|[Hl (y & Hy & Hk)]].
      * left. split; [exact Hl|].
        intros y [<-|Hy]; [exact E|now apply Hall].
      * right. split.
        { rewrite last_cons; [exact Hl|]. intro El. rewrite El in Hy. destruct Hy. }
        exists y. split; [now right|exact Hk].
    + right. split.
      * reflexivity.
      * exists z. split; [now left|exact E].
Qed.

Lemma sort_decorated_last l d :
  l <> [] ->
  In (last (sort_decorated l) d) l /\
  forall x, In x l -> key_lt (fst (last (sort_decorated l) d)) (fst x) = false.
Proof.
  induction l as [|x l IH]; [congruence|]. intros _.
  destruct l as [|x' l'].
  - simpl. split; [now left|]. intros y [<-|[]]. apply key_lt_irrefl.
  - destruct IH as [Hin Hmax]; [discriminate|].
    change (sort_decorated (x :: x' :: l'))
      with (insert x (sort_decorated (x' :: l'))).
    destruct (last_insert x (sort_decorated (x' :: l')) d)
      as [[Hl Hall]|[Hl (y & Hy & Hk)]]; rewrite Hl.
    + split; [now left|]. intros z [<-|Hz]; [apply key_lt_irrefl|].
      apply key_lt_asym. apply Hall. apply in_sort_decorated. exact Hz.
    + split; [now right|]. intros z [<-|Hz]; [|now apply Hmax].
      apply key_ge_trans with (fst y); [|exact Hk].
      apply Hmax. apply in_sort_decorated. exact Hy.
Qed.

Lemma hd_rev_last (A : Type) (l : list A) (d : A) :
  l <> [] -> exists tl, rev l = last l d :: tl.
Proof.
  induction l as [|x l _] using rev_ind; [congruence|]. intros _.
  rewrite rev_app_distr, last_last. simpl. eauto.
Qed.

Lemma decorate_const now ms : forall i,
  decorate (fun _ => now) i ms = map (fun m => (sort_key now now m, m)) ms.
Proof.
  induction ms as [|m ms IH]; intro i; simpl; [reflexivity|]. now rewrite IH.
Qed.

(** What [_select_sender] selects when the clock stands still through the
    call: a sender that no other sender beats, where a closed circuit beats
    an open one, then a lower failure rate beats a higher one, then a
    greater [recovery_time] beats a smaller one. *)
Lemma select_managed_best now ms m :
  select_managed (fun _ => now) ms = Some m ->
  In m ms /\
  forall m', In m' ms ->
    (is_circuit_open now m = true -> is_circuit_open now m' = true) /\
    (is_circuit_open now m = is_circuit_open now m' ->
       (failure_rate m <= failure_rate m')%Q) /\
    (is_circuit_open now m = is_circuit_open now m' ->
       (failure_rate m == failure_rate m')%Q ->
       recovery_time now m' <= recovery_time now m).
Proof.
  intro H.
  destruct ms as [|m0 ms']; [discriminate H|].
  remember (m0 :: ms') as ms eqn:Ems.
  unfold select_managed, sorted in H. rewrite decorate_const in H.
  set (l := map (fun m => (sort_key now now m, m)) ms) in *.
  assert (Hne : l <> []) by (unfold l; rewrite Ems; discriminate).
  destruct (sort_decorated_last l (sort_key now now m0, m0) Hne) as [Hin Hmax].
  assert (Hne' : map snd (sort_decorated l) <> []).
  { intro E. apply map_eq_nil in E. apply Hne.
    destruct l as [|x l']; [reflexivity|].
    assert (Hx : In x (sort_decorated (x :: l')))
      by (apply in_sort_decorated; now left).
    rewrite E in Hx. destruct Hx. }
  destruct (hd_rev_last _ _ m0 Hne') as [tl Hrev]. rewrite Hrev in H.
  injection H as Hm.
  assert (Hlast : last (map snd (sort_decorated l)) m0
                  = snd (last (sort_decorated l) (sort_key now now m0, m0))).
  { generalize (sort_decorated l). intro s.
    induction s as [|y s IHs]; [reflexivity|].
    destruct s; [reflexivity|]. exact IHs. }
  rewrite Hlast in Hm.
  subst l. apply in_map_iff in Hin. destruct Hin as (mz & Ez & Hinz).
  rewrite <- Ez in Hm, Hmax. cbn [fst snd] in Hm, Hmax. subst mz.
  split; [exact Hinz|].
  intros m' Hm'.
  assert (Hk : key_lt (sort_key now now m) (sort_key now now m') = false).
  { apply (Hmax (sort_key now now m', m')). apply in_map_iff. eauto. }
  apply key_lt_false in Hk. unfold sort_key in Hk. simpl in Hk.
  destruct Hk as (K1 & K2 & K3).
  repeat split.
  - intro Ho. rewrite Ho in K1. specialize (K1 eq_refl).
    now apply negb_false_iff in K1.
  - intro Eo. rewrite Eo in K2. specialize (K2 eq_refl). lra.
  - intros Eo Er. rewrite Eo in K3. apply (K3 eq_refl). lra.
Qed.

(** C7, as stated, fails: a second after the recovery time of a sender has
    passed, [recovery_time] is minus one second, not zero. *)
Lemma recovery_time_goes_negative :
  recovery_time 3000000 Scenarios.failed_at_0 = -1000000 /\
  recovery_time 3000000 Scenarios.failed_at_0
    <> Z.max 0 (_recover_at Scenarios.failed_at_0 - 3000000).
Proof. split; [reflexivity|discriminate]. Qed.

(** C2 at two open senders with the same failure rate: the one selected is
    the one that recovers later, wherever it stands in the dictionary. *)
Theorem select_managed_picks_later_recovery :
  let a := Scenarios.failed_at_0 in
  let b := Scenarios.failed_at_1s in
  let now := 1500000 in
  is_circuit_open now a = true /\ is_circuit_open now b = true /\
  (failure_rate a == failure_rate b)%Q /\
  recovery_time now a < recovery_time now b /\
  select_managed (fun _ => now) [a; b] = Some b /\
  select_managed (fun _ => now) [b; a] = Some b.
Proof. repeat split. Qed.

End BreakerProperties.

(** ** The request loop *)

Section RequestProperties.
Import Breaker Dispatch.

Variable Payload : Type.
Variable send : Payload -> nat -> nat -> Reply.
Variable wall : nat -> Z.
Variable payload : Payload.

Abbreviation make_request := (_make_request Payload send wall payload).
Abbreviation select_sender := (_select_sender wall).
Abbreviation loop := (request_loop Payload send wall payload).
Abbreviation Runs := (runs Payload send wall payload).

Lemma same_call_refl c : same_call c c.
Proof. repeat split. Qed.

Lemma same_call_trans c1 c2 c3 :
  same_call c1 c2 -> same_call c2 c3 -> same_call c1 c3.
Proof.
  unfold same_call. intros (A1 & A2 & A3 & A4 & A5 & A6) (B1 & B2 & B3 & B4 & B5 & B6).
  repeat split; congruence.
Qed.

Lemma select_sender_same c w s c1 w1 :
  select_sender c w = (s, c1, w1) -> same_call c c1 /\ sent w1 = sent w.
Proof.
  unfold _select_sender. intro H.
  destruct (class c); inversion H; subst; split;
    try reflexivity; repeat split.
Qed.

Lemma Client_make_request_same c w t u o c1 w1 evs d :
  Client_make_request Payload send wall payload c w t u = (o, c1, w1, evs, d) ->
  same_call c c1.
Proof.
  unfold Client_make_request. intro H.
  destruct (select_sender c w) as [[s c'] w'] eqn:E.
  apply select_sender_same in E. destruct E as [E _].
  destruct (Qltb _ _); inversion H; subst; exact E.
Qed.

Lemma update_managed_same c s f : same_call c (update_managed c s f).
Proof. repeat split. Qed.

Lemma make_request_same c w t o c1 w1 evs d :
  make_request c w t = (o, c1, w1, evs, d) -> same_call c c1.
Proof.
  unfold _make_request. intro H.
  destruct (class c) eqn:Ec.
  - eapply Client_make_request_same; eauto.
  - unfold Backoff_make_request in H.
    destruct (0 <? _current_attempt c).
    + destruct (Qltb _ t).
      * destruct (Client_make_request _ _ _ _ _ _ _ _) as [[[[o' c'] w'] evs'] d'] eqn:E.
        inversion H; subst. eapply Client_make_request_same; eauto.
      * inversion H; subst. apply same_call_refl.
    + eapply Client_make_request_same; eauto.
  - eapply Client_make_request_same; eauto.
  - unfold Hedging_make_request in H.
    destruct (select_sender c w) as [[s c'] w'] eqn:E.
    apply select_sender_same in E. destruct E as [E _].
    destruct (Qltb (latency _) (total_seconds _)).
    + destruct (Qltb _ t); inversion H; subst; exact E.
    + destruct (Qltb _ t); [|inversion H; subst; exact E].
      destruct (first_completed _ _) as [t' r'].
      destruct (Qltb t' t); inversion H; subst; exact E.
  - unfold CircuitBreaker_make_request in H.
    destruct (select_sender c w) as [[s c'] w'] eqn:E.
    apply select_sender_same in E. destruct E as [E _].
    destruct (is_circuit_open _ _); [inversion H; subst; exact E|].
    destruct (Client_make_request _ _ _ _ _ _ _ _) as [[[[o' c''] w''] evs'] d'] eqn:E2.
    apply Client_make_request_same in E2.
    pose proof (same_call_trans _ _ _ E E2) as E3.
    destruct o'; [|inversion H; subst; exact E3..].
    destruct (result =? HTTP_OK); inversion H; subst;
      (eapply same_call_trans; [exact E3|apply update_managed_same]).
Qed.

(** One unfolding of the loop. *)
Lemma loop_unfold fuel c w :
  loop (S fuel) c w =
    if max_retries (strategy c) <=? _current_attempt c
    then Some (raise MAX_RETRIES_EXCEEDED c w [])
    else if remaining c <=? 0
    then Some (raise LATENCY_BUDGET_EXHAUSTED c w [])
    else
      let '(o, c1, w1, evs, d) := make_request c w (total_seconds (remaining c)) in
      match o with
      | TimedOut => Some (raise LATENCY_BUDGET_EXHAUSTED c1 w1 [attempt c w evs o])
      | BreakerOpen => Some (raise CIRCUIT_BREAKER_OPEN c1 w1 [attempt c w evs o])
      | Completed result =>
          if is_fast c result
          then Some (raise NON_RETRYABLE_ERROR c1 w1 [attempt c w evs o])
          else if result =? HTTP_OK
          then Some {| r_result := Returned result; r_client := c1;
                       r_world := w1; r_log := [attempt c w evs o] |}
          else option_map (cons_log (attempt c w evs o))
                 (loop fuel (set_counters c1 (_current_attempt c1 + 1)
                               (_time_spent c1 + timedelta_of_seconds d)) w1)
      end.
Proof.
  unfold remaining, attempt, is_fast. simpl.
  destruct (_ <=? _); [reflexivity|].
  destruct (_ <=? 0); [reflexivity|].
  destruct (make_request c w _) as [[[[o c1] w1] evs] d].
  destruct o; reflexivity.
Qed.

(** The function and the relation agree. *)
Lemma loop_runs fuel : forall c w run, loop fuel c w = Some run -> Runs c w run.
Proof.
  induction fuel as [|fuel IH]; intros c w run H; [discriminate|].
  rewrite loop_unfold in H.
  destruct (Z.leb_spec (max_retries (strategy c)) (_current_attempt c)) as [Hm|Hm].
  { inversion H; subst. now constructor. }
  destruct (Z.leb_spec (remaining c) 0) as [Hb|Hb].
  { inversion H; subst. now constructor. }
  destruct (make_request c w (total_seconds (remaining c)))
    as [[[[o c1] w1] evs] d] eqn:E.
  destruct o as [result| |].
  - destruct (is_fast c result) eqn:Ef.
    { inversion H; subst. eapply runs_fast_error; eauto. }
    destruct (Z.eqb_spec result HTTP_OK) as [Eok|Eok].
    { inversion H; subst run. eapply runs_ok; eauto. }
    destruct (loop fuel _ w1) as [run'|] eqn:E'; [|discriminate].
    inversion H; subst. eapply runs_retry; eauto.
  - inversion H; subst. eapply runs_timeout; eauto.
  - inversion H; subst. eapply runs_breaker_open; eauto.
Qed.

(** [request] is total: the fuel it starts with is enough. *)
Lemma loop_total fuel : forall c w,
  max_retries (strategy c) - _current_attempt c <= Z.of_nat fuel ->
  exists run, loop (S fuel) c w = Some run.
Proof.
  induction fuel as [|fuel IH]; intros c w Hf; rewrite loop_unfold.
  { destruct (Z.leb_spec (max_retries (strategy c)) (_current_attempt c));
      [eexists; reflexivity|lia]. }
  destruct (Z.leb_spec (max_retries (strategy c)) (_current_attempt c)) as [Hm|Hm];
    [eexists; reflexivity|].
  destruct (Z.leb_spec (remaining c) 0) as [Hb|Hb];
    [eexists; reflexivity|].
  destruct (make_request c w _) as [[[[o c1] w1] evs] d] eqn:E.
  apply make_request_same in E. destruct E as (_ & Es & _ & _ & Ea & _).
  destruct o as [result| |]; try (eexists; reflexivity).
  destruct (is_fast c result); [eexists; reflexivity|].
  destruct (result =? HTTP_OK); [eexists; reflexivity|].
  destruct (IH (set_counters c1 (_current_attempt c1 + 1)
                   (_time_spent c1 + timedelta_of_seconds d)) w1) as [run' Hr].
  { simpl. rewrite Es, Ea. lia. }
  rewrite Hr. eexists; reflexivity.
Qed.

Lemma request_runs c w :
  exists run, request Payload send wall payload c w = Some run /\ Runs c w run.
Proof.
  unfold request.
  destruct (loop_total (Z.to_nat (max_retries (strategy c) - _current_attempt c))
              c w) as [run H]; [lia|].
  exists run. split; [exact H|]. eapply loop_runs; eauto.
Qed.

(** *** What one attempt does *)

Lemma Client_make_request_shape c w t u o c1 w1 evs d :
  Client_make_request Payload send wall payload c w t u = (o, c1, w1, evs, d) ->
  let '(s, _, w') := select_sender c w in
  evs = [EvSend s] /\
  (forall result, o = Completed result ->
     result = status (send payload s (sent w'))) /\
  o <> BreakerOpen.
Proof.
  unfold Client_make_request.
  destruct (select_sender c w) as [[s c'] w'].
  destruct (Qltb _ _); intro H; inversion H; subst;
    (split; [reflexivity|split; [intros r Hr; congruence|discriminate]]).
Qed.

Lemma first_completed_in tasks : forall best,
  first_completed best tasks = best \/ In (first_completed best tasks) tasks.
Proof.
  induction tasks as [|t tasks IH]; intro best; simpl; [now left|].
  destruct (Qltb _ _).
  - destruct (IH t) as [E|E]; [rewrite E|]; right; [now left|now right].
  - destruct (IH best) as [E|E]; [now left|right; now right].
Qed.

Lemma fan_out_in ss : forall k r,
  In r (fan_out send payload k ss) -> exists s k', r = send payload s k'.
Proof.
  induction ss as [|s ss IH]; intros k r H; simpl in H; [contradiction|].
  destruct H as [H|H]; [now exists s, k|eauto].
Qed.

(** A completed attempt returns the status of one of the sends. *)
Lemma make_request_completed c w t result c1 w1 evs d :
  make_request c w t = (Completed result, c1, w1, evs, d) ->
  exists s k, result = status (send payload s k).
Proof.
  assert (HC : forall c w t u c1 w1 evs d,
    Client_make_request Payload send wall payload c w t u
      = (Completed result, c1, w1, evs, d) ->
    exists s k, result = status (send payload s k)).
  { clear. intros c w t u c1 w1 evs d H.
    apply Client_make_request_shape in H.
    destruct (select_sender c w) as [[s c'] w'].
    destruct H as (_ & H & _). eauto. }
  unfold _make_request. intro H.
  destruct (class c) eqn:Ec; try (eapply HC; eassumption).
  - unfold Backoff_make_request in H.
    destruct (0 <? _current_attempt c); [|eapply HC; eassumption].
    destruct (Qltb _ t); [|discriminate].
    destruct (Client_make_request _ _ _ _ _ _ _ _) as [[[[o' c'] w'] evs'] d'] eqn:E.
    inversion H; subst. eapply HC; eassumption.
  - unfold Hedging_make_request in H.
    destruct (select_sender c w) as [[s c'] w'].
    destruct (Qltb (latency _) (total_seconds _)).
    + destruct (Qltb _ t); inversion H; eauto.
    + destruct (Qltb _ t); [|discriminate].
      match type of H with context [first_completed ?b ?l] =>
        pose proof (first_completed_in l b) as Hin;
        destruct (first_completed b l) as [t' r'] end.
      destruct (Qltb t' t); inversion H; subst.
      destruct Hin as [Hin|Hin]; [inversion Hin; eauto|].
      apply in_map_iff in Hin. destruct Hin as (r0 & E0 & Hin).
      apply fan_out_in in Hin. destruct Hin as (s0 & k0 & ->).
      inversion E0; eauto.
  - unfold CircuitBreaker_make_request in H.
    destruct (select_sender c w) as [[s c'] w'].
    destruct (is_circuit_open _ _); [discriminate|].
    destruct (Client_make_request _ _ _ _ _ _ _ _) as [[[[o' c''] w''] evs'] d'] eqn:E.
    destruct o'; [|discriminate..].
    assert (result0 = result) as ->
      by (destruct (result0 =? HTTP_OK); inversion H; reflexivity).
    eapply HC; eassumption.
Qed.

(** Outside hedging an attempt sends at most once, and once when it
    completes. *)
Lemma make_request_sends c w t o c1 w1 evs d :
  ~ hedges c ->
  make_request c w t = (o, c1, w1, evs, d) ->
  (sends evs <= 1)%nat /\ (forall result, o = Completed result -> sends evs = 1%nat).
Proof.
  assert (HC : forall c w t u o c1 w1 evs d,
    Client_make_request Payload send wall payload c w t u = (o, c1, w1, evs, d) ->
    sends evs = 1%nat).
  { clear. intros c w t u o c1 w1 evs d H.
    apply Client_make_request_shape in H.
    destruct (select_sender c w) as [[s c'] w'].
    destruct H as (-> & _). reflexivity. }
  intros Hh. unfold _make_request. intro H.
  destruct (class c) eqn:Ec;
    try (apply HC in H; rewrite H; split; [lia|reflexivity]).
  - unfold Backoff_make_request in H.
    destruct (0 <? _current_attempt c);
      [|apply HC in H; rewrite H; split; [lia|reflexivity]].
    destruct (Qltb _ t).
    + destruct (Client_make_request _ _ _ _ _ _ _ _) as [[[[o' c'] w'] evs'] d'] eqn:E.
      inversion H; subst. apply HC in E. unfold sends in *. simpl.
      rewrite E. split; [lia|reflexivity].
    + inversion H; subst. split; [unfold sends; simpl; lia|discriminate].
  - exfalso. apply Hh. now exists h.
  - unfold CircuitBreaker_make_request in H.
    destruct (select_sender c w) as [[s c'] w'].
    destruct (is_circuit_open _ _).
    { inversion H; subst. split; [unfold sends; simpl; lia|discriminate]. }
    destruct (Client_make_request _ _ _ _ _ _ _ _) as [[[[o' c''] w''] evs'] d'] eqn:E.
    apply HC in E.
    assert (evs = evs') as ->.
    { destruct o'; [destruct (result =? HTTP_OK)|..]; inversion H; reflexivity. }
    rewrite E. split; [lia|reflexivity].
Qed.

(** Only the circuit breaker client ends an attempt on an open circuit, and
    it does so before any send. *)
Lemma make_request_breaker_open c w t c1 w1 evs d :
  make_request c w t = (BreakerOpen, c1, w1, evs, d) ->
  (exists cb, class c = CircuitBreakerMultiClient_ cb) /\ evs = [].
Proof.
  assert (HC : forall c w t u c1 w1 evs d,
    Client_make_request Payload send wall payload c w t u
      = (BreakerOpen, c1, w1, evs, d) -> False).
  { clear. intros c w t u c1 w1 evs d H.
    apply Client_make_request_shape in H.
    destruct (select_sender c w) as [[s c'] w'].
    destruct H as (_ & _ & H). now apply H. }
  unfold _make_request. intro H.
  destruct (class c) eqn:Ec; try (exfalso; eapply HC; eassumption).
  - exfalso. unfold Backoff_make_request in H.
    destruct (0 <? _current_attempt c); [|eapply HC; eassumption].
    destruct (Qltb _ t); [|discriminate].
    destruct (Client_make_request _ _ _ _ _ _ _ _) as [[[[o' c'] w'] evs'] d'] eqn:E.
    inversion H; subst. eapply HC; eassumption.
  - exfalso. unfold Hedging_make_request in H.
    destruct (select_sender c w) as [[s c'] w'].
    destruct (Qltb (latency _) (total_seconds _)).
    + destruct (Qltb _ t); discriminate.
    + destruct (Qltb _ t); [|discriminate].
      destruct (first_completed _ _) as [t' r'].
      destruct (Qltb t' t); discriminate.
  - split; [now exists cb|].
    unfold CircuitBreaker_make_request in H.
    destruct (select_sender c w) as [[s c'] w'].
    destruct (is_circuit_open _ _); [now inversion H|].
    destruct (Client_make_request _ _ _ _ _ _ _ _) as [[[[o' c''] w''] evs'] d'] eqn:E.
    exfalso. destruct o'; [destruct (result =? HTTP_OK)|..]; inversion H; subst.
    eapply HC; eassumption.
Qed.

(** *** Counting attempts *)

Lemma is_fast_same c c' result :
  strategy c' = strategy c -> is_fast c' result = is_fast c result.
Proof. unfold is_fast. now intros ->. Qed.

Lemma hedges_same c c' : class c' = class c -> hedges c' <-> hedges c.
Proof. unfold hedges. now intros ->. Qed.

Lemma runs_attempts c w run :
  Runs c w run ->
  Z.of_nat (length (r_log run))
    <= Z.max 0 (max_retries (strategy c) - _current_attempt c) /\
  (~ hedges c -> (sends (run_events run) <= length (r_log run))%nat) /\
  (all_fail Payload send payload c ->
     (r_result run = Raised MAX_RETRIES_EXCEEDED /\
      Z.of_nat (length (r_log run))
        = Z.max 0 (max_retries (strategy c) - _current_attempt c) /\
      (~ hedges c -> sends (run_events run) = length (r_log run)) /\
      _current_attempt (r_client run)
        = Z.max (_current_attempt c) (max_retries (strategy c)))
     \/
     (r_result run = Raised LATENCY_BUDGET_EXHAUSTED /\
      _current_attempt (r_client run) < max_retries (strategy c))
     \/
     (r_result run = Raised CIRCUIT_BREAKER_OPEN /\
      (exists cb, class c = CircuitBreakerMultiClient_ cb) /\
      _current_attempt (r_client run) < max_retries (strategy c))).
Proof.
  induction 1 as
    [c w Hm | c w Hm Hb
    | c w c1 w1 evs d Hm Hb E | c w c1 w1 evs d Hm Hb E
    | c w c1 w1 evs d result Hm Hb E Hf
    | c w c1 w1 evs d result Hm Hb E Hf Hok
    | c w c1 w1 evs d result run Hm Hb E Hf Hok Hrun IH];
    unfold run_events; simpl.
  - split; [lia|]. split; [intros; cbn; lia|]. intros _. left.
    repeat split; try lia.
  - split; [lia|]. split; [intros; cbn; lia|]. intros _. right. left. now split.
  - pose proof (make_request_same _ _ _ _ _ _ _ _ E) as (_ & Es & _ & _ & Ea & _).
    split; [lia|]. split.
    + intro Hh. destruct (make_request_sends _ _ _ _ _ _ _ _ Hh E) as [L _].
      rewrite app_nil_r. exact L.
    + intros _. right. left. split; [reflexivity|]. rewrite Ea. exact Hm.
  - pose proof (make_request_same _ _ _ _ _ _ _ _ E) as (_ & Es & _ & _ & Ea & _).
    destruct (make_request_breaker_open _ _ _ _ _ _ _ E) as [Hc ->].
    split; [lia|]. split; [intros _; unfold sends; simpl; lia|].
    intros _. right. right. repeat split; [exact Hc|]. rewrite Ea. exact Hm.
  - split; [lia|]. split.
    + intro Hh. destruct (make_request_sends _ _ _ _ _ _ _ _ Hh E) as [L _].
      rewrite app_nil_r. exact L.
    + intro Hall. unfold all_fail in Hall. exfalso.
      destruct (make_request_completed _ _ _ _ _ _ _ _ E) as (s & k & ->).
      destruct (Hall s k) as [_ Hn]. congruence.
  - split; [lia|]. split.
    + intro Hh. destruct (make_request_sends _ _ _ _ _ _ _ _ Hh E) as [L _].
      rewrite app_nil_r. exact L.
    + intro Hall. unfold all_fail in Hall. exfalso.
      destruct (make_request_completed _ _ _ _ _ _ _ _ E) as (s & k & ->).
      destruct (Hall s k) as [Hn _]. congruence.
  - pose proof (make_request_same _ _ _ _ _ _ _ _ E) as (Ec & Es & _ & _ & Ea & _).
    simpl in IH. rewrite Es, Ea in IH.
    destruct IH as (IH1 & IH2 & IH3).
    assert (Hh' : hedges (set_counters c1 (_current_attempt c1 + 1)
                    (_time_spent c1 + timedelta_of_seconds d)) <-> hedges c)
      by (apply hedges_same; exact Ec).
    split; [lia|]. split.
    + intro Hh.
      destruct (make_request_sends _ _ _ _ _ _ _ _ Hh E) as [L _].
      assert (IH2' := IH2 (fun X => Hh (proj1 Hh' X))).
      unfold run_events in IH2'. unfold sends in *.
      rewrite filter_app, length_app. lia.
    + intro Hall.
      destruct IH3 as [(R & Hl & Hs & Hc)|[(R & Hc)|(R & Hcb & Hc)]].
      { intros s k. destruct (Hall s k) as [A B]. split; [exact A|].
        rewrite <- B. apply is_fast_same. exact Es. }
      * left. split; [exact R|]. split; [lia|]. split; [|lia].
        intro Hh.
        destruct (make_request_sends _ _ _ _ _ _ _ _ Hh E) as [_ L].
        specialize (L _ eq_refl).
        assert (Hs' := Hs (fun X => Hh (proj1 Hh' X))).
        unfold run_events in Hs'. unfold sends in *.
        rewrite filter_app, length_app. lia.
      * right. left. split; [exact R|lia].
      * right. right. split; [exact R|]. split; [|lia].
        destruct Hcb as [cb Hcb]. exists cb. simpl in Hcb. congruence.
Qed.

(** *** Errors that are not retried *)

Lemma is_fast_In c result :
  is_fast c result = true <-> In result (fast_errors (strategy c)).
Proof.
  unfold is_fast. rewrite existsb_exists. split.
  - intros (x & Hin & E). apply Z.eqb_eq in E. now subst.
  - intro Hin. exists result. split; [exact Hin|apply Z.eqb_refl].
Qed.

Lemma runs_non_retryable c w run :
  Runs c w run ->
  (r_result run = Raised NON_RETRYABLE_ERROR <->
   exists a result, In a (r_log run) /\ a_outcome a = Completed result /\
                    In result (fast_errors (strategy c))) /\
  (forall a result,
     In a (r_log run) -> a_outcome a = Completed result ->
     In result (fast_errors (strategy c)) ->
     (exists before, r_log run = before ++ [a]) /\
     _current_attempt (r_client run) = _current_attempt (a_client a) /\
     _time_spent (r_client run) = _time_spent (a_client a)).
Proof.
  induction 1 as
    [c w Hm | c w Hm Hb
    | c w c1 w1 evs d Hm Hb E | c w c1 w1 evs d Hm Hb E
    | c w c1 w1 evs d result Hm Hb E Hf
    | c w c1 w1 evs d result Hm Hb E Hf Hok
    | c w c1 w1 evs d result run Hm Hb E Hf Hok Hrun IH]; simpl.
  - split; [split; [discriminate|intros (a & r & [] & _)]|intros a r []].
  - split; [split; [discriminate|intros (a & r & [] & _)]|intros a r []].
  - split.
    + split; [discriminate|].
      intros (a & r & [<-|[]] & Ho & _). discriminate.
    + intros a r [<-|[]] Ho. discriminate.
  - split.
    + split; [discriminate|].
      intros (a & r & [<-|[]] & Ho & _). discriminate.
    + intros a r [<-|[]] Ho. discriminate.
  - pose proof (make_request_same _ _ _ _ _ _ _ _ E) as (_ & _ & _ & _ & Ea & Et).
    split.
    + split; [intros _|reflexivity].
      eexists; exists result. split; [now left|]. split; [reflexivity|].
      now apply is_fast_In.
    + intros a r [<-|[]] Ho Hin. simpl.
      split; [now exists []|]. now split.
  - split.
    + split; [discriminate|].
      intros (a & r & [<-|[]] & Ho & Hin). simpl in Ho. inversion Ho; subst r.
      apply is_fast_In in Hin. congruence.
    + intros a r [<-|[]] Ho Hin. simpl in Ho. inversion Ho; subst r.
      apply is_fast_In in Hin. congruence.
  - pose proof (make_request_same _ _ _ _ _ _ _ _ E) as (_ & Es & _).
    simpl in IH. rewrite Es in IH. destruct IH as [IH1 IH2].
    assert (Hnot : ~ In result (fast_errors (strategy c))).
    { intro Hin. apply is_fast_In in Hin. congruence. }
    split.
    + rewrite IH1. split.
      * intros (a & r & Hin & Ho & Hr). exists a, r. split; [now right|now split].
      * intros (a & r & [<-|Hin] & Ho & Hr).
        { simpl in Ho. inversion Ho; subst r. contradiction. }
        exists a, r. now repeat split.
    + intros a r [<-|Hin] Ho Hr.
      { simpl in Ho. inversion Ho; subst r. contradiction. }
      destruct (IH2 a r Hin Ho Hr) as ((before & Eb) & Hc).
      split; [|exact Hc].
      exists (attempt c w evs (Completed result) :: before). now rewrite Eb.
Qed.

(** C9: with [max_retries] at 0, a call of [request] on a client that has
    not yet counted an attempt below zero raises MAX_RETRIES_EXCEEDED at
    once: no attempt is made, nothing is sent, and the client and the world
    stay as they were. *)
Theorem request_zero_retries (c : Client) (w : World) :
  max_retries (strategy c) = 0 ->
  0 <= _current_attempt c ->
  request Payload send wall payload c w
    = Some {| r_result := Raised MAX_RETRIES_EXCEEDED;
              r_client := c; r_world := w; r_log := [] |} /\
  sends (run_events {| r_result := Raised MAX_RETRIES_EXCEEDED;
                       r_client := c; r_world := w; r_log := [] |}) = 0%nat.
Proof.
  intros Hm Hc. split; [|reflexivity].
  unfold request. rewrite loop_unfold.
  destruct (Z.leb_spec (max_retries (strategy c)) (_current_attempt c)); [|lia].
  reflexivity.
Qed.

(** *** The attempts of a run *)

(** The [i]-th attempt of a call started on [c]: made by the same client,
    [i] attempts later, past both guards of [request]. *)
Lemma runs_log c w run :
  Runs c w run ->
  forall i a, nth_error (r_log run) i = Some a ->
    class (a_client a) = class c /\
    strategy (a_client a) = strategy c /\
    _current_attempt (a_client a) = _current_attempt c + Z.of_nat i /\
    _current_attempt (a_client a) < max_retries (strategy c) /\
    0 < remaining (a_client a) /\
    exists c1 w1 d,
      make_request (a_client a) (a_world a) (total_seconds (remaining (a_client a)))
        = (a_outcome a, c1, w1, a_events a, d).
Proof.
  assert (single : forall c w c1 w1 evs d o,
    _current_attempt c < max_retries (strategy c) ->
    0 < remaining c ->
    make_request c w (total_seconds (remaining c)) = (o, c1, w1, evs, d) ->
    forall i a, nth_error [attempt c w evs o] i = Some a ->
      class (a_client a) = class c /\
      strategy (a_client a) = strategy c /\
      _current_attempt (a_client a) = _current_attempt c + Z.of_nat i /\
      _current_attempt (a_client a) < max_retries (strategy c) /\
      0 < remaining (a_client a) /\
      exists c1 w1 d,
        make_request (a_client a) (a_world a)
          (total_seconds (remaining (a_client a)))
          = (a_outcome a, c1, w1, a_events a, d)).
  { clear. intros c w c1 w1 evs d o Hm Hb E i a Hn.
    destruct i as [|i]; [|destruct i; discriminate].
    inversion Hn; subst a. simpl.
    repeat split; try assumption; try lia. eauto. }
  induction 1 as
    [c w Hm | c w Hm Hb
    | c w c1 w1 evs d Hm Hb E | c w c1 w1 evs d Hm Hb E
    | c w c1 w1 evs d result Hm Hb E Hf
    | c w c1 w1 evs d result Hm Hb E Hf Hok
    | c w c1 w1 evs d result run Hm Hb E Hf Hok Hrun IH]; simpl;
    try (eapply single; eassumption).
  - intros i a Hn. destruct i; discriminate.
  - intros i a Hn. destruct i; discriminate.
  - intros i a Hn. destruct i as [|i].
    + eapply (single c w c1 w1 evs d (Completed result) Hm Hb E 0%nat). exact Hn.
    + simpl in Hn. specialize (IH i a Hn).
      pose proof (make_request_same _ _ _ _ _ _ _ _ E) as (Ec & Es & _ & _ & Ea & _).
      simpl in IH. rewrite Ec, Es, Ea in IH.
      destruct IH as (I1 & I2 & I3 & I4 & I5 & I6).
      repeat split; try assumption. lia.
Qed.

(** *** Backoff *)

Lemma backoff_attempt_events b c w t o c1 w1 evs d :
  class c = BackoffClient_ b ->
  make_request c w t = (o, c1, w1, evs, d) ->
  if 0 <? _current_attempt c
  then exists rest,
         evs = EvWait (backoff_delay b (_current_attempt c)) :: rest /\
         (rest = [] \/ exists s, rest = [EvSend s])
  else exists s, evs = [EvSend s].
Proof.
  intros Ec H. unfold _make_request in H. rewrite Ec in H.
  unfold Backoff_make_request in H.
  destruct (0 <? _current_attempt c).
  - destruct (Qltb _ t).
    + destruct (Client_make_request _ _ _ _ _ _ _ _) as [[[[o' c'] w'] evs'] d'] eqn:E.
      inversion H; subst.
      apply Client_make_request_shape in E.
      destruct (select_sender c w) as [[s c''] w''].
      destruct E as (-> & _). eexists. split; [reflexivity|]. right. now exists s.
    + inversion H; subst. eexists. split; [reflexivity|]. now left.
  - apply Client_make_request_shape in H.
    destruct (select_sender c w) as [[s c''] w''].
    destruct H as (-> & _). now exists s.
Qed.

(** C5: in a call of [request] on a fresh [BackoffClient], the first attempt
    waits for nothing before its send, and the [n]-th attempt, for every
    [n >= 2], begins with one call of [_wait], on
    [initial_delay * backoff_factor ^ (n - 2)] seconds, followed by at most
    the send; with [initial_delay] at zero that argument is zero. *)
Theorem backoff_wait_before_attempt (b : BackoffStrategy) (c : Client) (w : World) :
  class c = BackoffClient_ b ->
  _current_attempt c = 0 ->
  exists run,
    request Payload send wall payload c w = Some run /\
    forall (n : nat) a,
      (1 <= n)%nat -> nth_error (r_log run) (n - 1) = Some a ->
      (n = 1%nat -> exists s, a_events a = [EvSend s]) /\
      ((2 <= n)%nat ->
         let delay := (total_seconds (initial_delay b)
                       * backoff_factor b ^ (Z.of_nat n - 2))%Q in
         (exists rest, a_events a = EvWait delay :: rest /\
                       (rest = [] \/ exists s, rest = [EvSend s])) /\
         (initial_delay b = 0 -> (delay == 0)%Q)).
Proof.
  intros Ec H0.
  destruct (request_runs c w) as (run & Hr & Hruns).
  exists run. split; [exact Hr|].
  intros n a Hn Hnth.
  destruct (runs_log c w run Hruns _ _ Hnth) as (Ac & _ & Aa & _ & _ & c1 & w1 & d & E).
  rewrite Ec in Ac. rewrite H0 in Aa.
  pose proof (backoff_attempt_events b _ _ _ _ _ _ _ _ Ac E) as Hev.
  split.
  - intros ->. simpl in Aa. rewrite Aa in Hev. exact Hev.
  - intros Hn2 delay.
    destruct (Z.ltb_spec 0 (_current_attempt (a_client a))) as [_|Hle]; [|lia].
    split.
    + destruct Hev as (rest & Hev & Hrest). exists rest. split; [|exact Hrest].
      rewrite Hev. unfold delay, backoff_delay. rewrite Aa.
      replace (0 + Z.of_nat (n - 1) - 1) with (Z.of_nat n - 2) by lia.
      reflexivity.
    + intro Hz. unfold delay. rewrite Hz. unfold total_seconds.
      unfold Qeq, Qmult. cbn [Qnum Qden]. lia.
Qed.

(** *** Hedging *)

Lemma hedging_attempt_in_time h c w t o c1 w1 evs d :
  class c = HedgingMultiClient_ h ->
  make_request c w t = (o, c1, w1, evs, d) ->
  let primary := fst (fst (select_sender c w)) in
  (latency (send payload primary (sent w)) < total_seconds (hedging_delay h))%Q ->
  evs = [EvSend primary].
Proof.
  intros Ec H primary Hlt. unfold _make_request in H. rewrite Ec in H.
  unfold Hedging_make_request in H.
  destruct (select_sender c w) as [[s c'] w'] eqn:Es.
  pose proof (select_sender_same _ _ _ _ _ Es) as [_ Esent].
  subst primary. simpl in Hlt. rewrite Esent in H.
  apply Qltb_lt in Hlt. rewrite Hlt in H.
  destruct (Qltb _ t); now inversion H.
Qed.

(** C10: in every attempt of a [HedgingMultiClient] whose main sender
    answers within [hedging_delay], the send to the main sender is the only
    event: exactly one send, and none to the other senders. *)
Theorem hedging_single_send (h : HedgingStrategy) (c : Client) (w : World) :
  class c = HedgingMultiClient_ h ->
  exists run,
    request Payload send wall payload c w = Some run /\
    forall a, In a (r_log run) ->
      let primary := fst (fst (select_sender (a_client a) (a_world a))) in
      (latency (send payload primary (sent (a_world a)))
         < total_seconds (hedging_delay h))%Q ->
      a_events a = [EvSend primary] /\ sends (a_events a) = 1%nat.
Proof.
  intros Ec.
  destruct (request_runs c w) as (run & Hr & Hruns).
  exists run. split; [exact Hr|].
  intros a Hin primary Hlt.
  destruct (In_nth_error _ _ Hin) as [i Hnth].
  destruct (runs_log c w run Hruns _ _ Hnth) as (Ac & _ & _ & _ & _ & c1 & w1 & d & E).
  rewrite Ec in Ac.
  pose proof (hedging_attempt_in_time h _ _ _ _ _ _ _ _ Ac E Hlt) as Hev.
  rewrite Hev. split; reflexivity.
Qed.

(** *** Success *)

Lemma runs_success c w run :
  Runs c w run ->
  forall a, In a (r_log run) -> a_outcome a = Completed HTTP_OK ->
    (exists before, r_log run = before ++ [a]) /\
    (is_fast c HTTP_OK = false -> r_result run = Returned HTTP_OK) /\
    (is_fast c HTTP_OK = true -> r_result run = Raised NON_RETRYABLE_ERROR) /\
    class (a_client a) = class c /\
    exists w1 d,
      make_request (a_client a) (a_world a) (total_seconds (remaining (a_client a)))
        = (Completed HTTP_OK, r_client run, w1, a_events a, d).
Proof.
  induction 1 as
    [c w Hm | c w Hm Hb
    | c w c1 w1 evs d Hm Hb E | c w c1 w1 evs d Hm Hb E
    | c w c1 w1 evs d result Hm Hb E Hf
    | c w c1 w1 evs d result Hm Hb E Hf Hok
    | c w c1 w1 evs d result run Hm Hb E Hf Hok Hrun IH]; simpl.
  - intros a [].
  - intros a [].
  - intros a [<-|[]] Ho. discriminate.
  - intros a [<-|[]] Ho. discriminate.
  - intros a [<-|[]] Ho. simpl in Ho. inversion Ho; subst result. simpl.
    split; [now exists []|]. split; [congruence|]. split; [reflexivity|].
    split; [reflexivity|eauto].
  - intros a [<-|[]] Ho. simpl.
    split; [now exists []|]. subst result.
    split; [reflexivity|]. split; [congruence|].
    split; [reflexivity|eauto].
  - intros a [<-|Hin] Ho.
    { simpl in Ho. inversion Ho. contradiction. }
    pose proof (make_request_same _ _ _ _ _ _ _ _ E) as (Ec & Es & _).
    destruct (IH a Hin Ho) as ((before & Eb) & I1 & I2 & I3 & I4).
    split; [exists (attempt c w evs (Completed result) :: before); now rewrite Eb|].
    rewrite (is_fast_same c _ HTTP_OK) in I1, I2 by exact Es.
    simpl in I3. rewrite Ec in I3.
    repeat split; assumption.
Qed.

Lemma decorate_ext (r1 r2 : nat -> Z) ms : forall i,
  (forall j, (2 * i <= j < 2 * (i + length ms))%nat -> r1 j = r2 j) ->
  decorate r1 i ms = decorate r2 i ms.
Proof.
  induction ms as [|m ms IH]; intros i H; simpl; [reflexivity|].
  rewrite (H (i + (i + 0))%nat), (H (i + (i + 0) + 1)%nat) by (simpl; lia).
  f_equal. apply IH. intros j Hj. apply H. simpl. lia.
Qed.

Lemma select_managed_ext (r1 r2 : nat -> Z) ms :
  (forall j, (j < 2 * length ms)%nat -> r1 j = r2 j) ->
  select_managed r1 ms = select_managed r2 ms.
Proof.
  intro H. unfold select_managed, sorted.
  rewrite (decorate_ext r1 r2 ms 0); [reflexivity|].
  intros j Hj. apply H. lia.
Qed.

(** A successful attempt of the circuit breaker client: the success goes to
    the sender that [_make_request] selected and checked; the send goes to
    the sender selected once more by [Client._make_request]. *)
Lemma breaker_attempt_success cb c w t c1 w1 evs d :
  class c = CircuitBreakerMultiClient_ cb ->
  make_request c w t = (Completed HTTP_OK, c1, w1, evs, d) ->
  let n := length (_managed_senders c) in
  let checked := _sender (select_best wall c w) in
  let attempted :=
    _sender (select_best wall c (add_reads (add_reads w (2 * n)) 1)) in
  evs = [EvSend attempted] /\
  _managed_senders c1 =
    map (fun m => if (_sender m =? checked)%nat then record_success m else m)
        (_managed_senders c).
Proof.
  intros Ec H n checked attempted.
  unfold _make_request in H. rewrite Ec in H.
  unfold CircuitBreaker_make_request in H.
  unfold _select_sender in H at 1. rewrite Ec in H.
  fold checked in H. fold n in H.
  destruct (is_circuit_open _ _); [discriminate|].
  unfold Client_make_request, _select_sender in H.
  cbn [class set_sender] in H. rewrite Ec in H.
  change (select_best wall (set_sender c checked)
            (add_reads (add_reads w (2 * n)) 1))
    with (select_best wall c (add_reads (add_reads w (2 * n)) 1)) in H.
  fold attempted in H.
  destruct (Qltb _ t); [|discriminate].
  destruct (Z.eqb_spec (status (send payload attempted
              (sent (add_reads (add_reads (add_reads w (2 * n)) 1)
                       (2 * length (_managed_senders (set_sender c checked)))))))
            HTTP_OK) as [Eok|Eok].
  - inversion H; subst. split; reflexivity.
  - inversion H; subst. congruence.
Qed.

(** C1, as the code has it: an attempt that ends with HTTP 200 is the last
    of its call, and the call returns 200 when 200 is not among
    [fast_errors] and raises NON_RETRYABLE_ERROR when it is. In the circuit
    breaker client the success is recorded either way, on the sender that
    the attempt selected and checked first; that is the sender of the send
    when the clock readings of the second selection repeat those of the
    first. *)
Theorem request_success (c : Client) (w : World) :
  exists run,
    request Payload send wall payload c w = Some run /\
    forall a, In a (r_log run) -> a_outcome a = Completed HTTP_OK ->
      (exists before, r_log run = before ++ [a]) /\
      (~ In HTTP_OK (fast_errors (strategy c)) ->
         r_result run = Returned HTTP_OK) /\
      (In HTTP_OK (fast_errors (strategy c)) ->
         r_result run = Raised NON_RETRYABLE_ERROR) /\
      (forall cb, class c = CircuitBreakerMultiClient_ cb ->
         let n := length (_managed_senders (a_client a)) in
         let checked := _sender (select_best wall (a_client a) (a_world a)) in
         exists attempted,
           a_events a = [EvSend attempted] /\
           _managed_senders (r_client run) =
             map (fun m => if (_sender m =? checked)%nat
                           then record_success m else m)
                 (_managed_senders (a_client a)) /\
           ((forall i, (i < 2 * n)%nat ->
               wall (reads (a_world a) + 2 * n + 1 + i)
                 = wall (reads (a_world a) + i)) ->
            attempted = checked)).
Proof.
  destruct (request_runs c w) as (run & Hr & Hruns).
  exists run. split; [exact Hr|].
  intros a Hin Ho.
  destruct (runs_success c w run Hruns a Hin Ho)
    as (Hlast & Hret & Hraise & Ec & w1 & d & E).
  split; [exact Hlast|]. split; [|split].
  - intro Hn. apply Hret. destruct (is_fast c HTTP_OK) eqn:Ef; [|reflexivity].
    exfalso. apply Hn. now apply is_fast_In.
  - intro Hf. apply Hraise. now apply is_fast_In.
  - intros cb Hcb n checked. rewrite Hcb in Ec.
    destruct (breaker_attempt_success cb _ _ _ _ _ _ _ Ec E) as [Hev Hm].
    eexists. split; [exact Hev|]. split; [exact Hm|].
    intro Hag. unfold checked, select_best. fold n.
    rewrite (select_managed_ext
               (fun i => wall (reads (add_reads (add_reads (a_world a) (2 * n)) 1) + i))
               (fun i => wall (reads (a_world a) + i))); [reflexivity|].
    intros j Hj. simpl. apply Hag. exact Hj.
Qed.

End RequestProperties.

(** ** Concrete runs *)

Section Runs.
Import Breaker Dispatch Scenarios.

(** *** The tests of the repository, replayed *)

Example test_client_should_succeed_on_first_attempt :
  observed (request unit (reply_after 200 (1 # 10)) still tt
              (create_client (plain 1 1000000 []) 0) fresh)
  = Some (Returned HTTP_OK, [([EvSend 0], Completed HTTP_OK)]).
Proof. reflexivity. Qed.

Example test_client_fail_on_any_error :
  observed (request unit (reply_after 500 (1 # 10)) still tt
              (create_client (plain 1 1000000 []) 0) fresh)
  = Some (Raised MAX_RETRIES_EXCEEDED, [([EvSend 0], Completed 500)]).
Proof. reflexivity. Qed.

Example test_client_should_fail_on_latency_budget_exhaustion :
  observed (request unit (reply_after 200 (1 # 10)) still tt
              (create_client (plain 1 50000 [400]) 0) fresh)
  = Some (Raised LATENCY_BUDGET_EXHAUSTED, [([EvSend 0], TimedOut)]).
Proof. reflexivity. Qed.

Example test_client_should_stop_retries_on_fast_error :
  observed (request unit (reply_after 400 (1 # 10)) still tt
              (create_client (plain 3 1000000 [400]) 0) fresh)
  = Some (Raised NON_RETRYABLE_ERROR, [([EvSend 0], Completed 400)]).
Proof. reflexivity. Qed.

Example test_client_should_stop_retries_on_budget_exhaustion :
  observed (request unit (reply_after 500 (1 # 10)) still tt
              (create_client (plain 5 250000 [400]) 0) fresh)
  = Some (Raised LATENCY_BUDGET_EXHAUSTED,
          [([EvSend 0], Completed 500); ([EvSend 0], Completed 500);
           ([EvSend 0], TimedOut)]).
Proof. reflexivity. Qed.

Example test_client_should_apply_backoff_between_retries :
  let r := request unit (reply_after 500 (1 # 10)) still tt
             (create_client (with_extra 4 5000000 [400] (Backoff backoff_100ms)) 0)
             fresh in
  option_map fst (observed r) = Some (Raised MAX_RETRIES_EXCEEDED) /\
  option_map (fun run => sends (run_events run)) r = Some 4%nat /\
  waited r = Some [1 # 10; 1 # 5; 2 # 5]%Q.
Proof. repeat split. Qed.

Example test_client_should_rotate_senders_on_retries :
  observed (request unit (replies [(500, 1 # 10); (503, 1 # 10); (200, 1 # 10)])
              still tt
              (create_multi_client (plain 3 5000000 [400]) 0 [1%nat; 2%nat]) fresh)
  = Some (Returned HTTP_OK,
          [([EvSend 0], Completed 500); ([EvSend 1], Completed 503);
           ([EvSend 2], Completed HTTP_OK)]).
Proof. reflexivity. Qed.

Example test_client_should_hedge_requests :
  observed (request unit
              (replies [(504, 1 # 2); (200, 1 # 10); (200, 1 # 10);
                        (200, 1 # 10); (504, 1 # 2)])
              still tt
              (create_multi_client
                 (with_extra 1 5000000 [] (Hedging {| hedging_delay := 100000 |}))
                 0 [1%nat; 2%nat; 3%nat; 4%nat]) fresh)
  = Some (Returned HTTP_OK,
          [([EvSend 0; EvSend 1; EvSend 2; EvSend 3; EvSend 4],
            Completed HTTP_OK)]).
Proof. reflexivity. Qed.

(** The first test of the circuit breaker passes on a clock that moves on
    between the readings of one selection: senders 0 and 1 fail and open,
    sender 2 answers. On a clock that stands still the first selection
    already goes to sender 2. *)
Example test_circuit_breaker_allows_requests_when_under_threshold :
  let st := with_extra 5 1000000 []
              (CircuitBreaker {| window_size := 4; failure_threshold := 1 # 2;
                                 recovery_timeout := 1000000 |}) in
  let senders := replies [(500, 1 # 10); (500, 1 # 10); (200, 1 # 10)] in
  histories (request unit senders ticking tt
               (create_multi_client st 0 [1%nat; 2%nat]) fresh)
    = Some [(0%nat, [false]); (1%nat, [false]); (2%nat, [true])] /\
  histories (request unit senders still tt
               (create_multi_client st 0 [1%nat; 2%nat]) fresh)
    = Some [(0%nat, []); (1%nat, []); (2%nat, [true])].
Proof. split; reflexivity. Qed.

(** C1, as stated, fails. With 200 among [fast_errors], a reply of 200
    makes [request] raise NON_RETRYABLE_ERROR. And in the circuit breaker
    client, when the clock moves on between the two selections of an
    attempt, the success of sender 0 is recorded on sender 1. *)
Lemma success_raises_or_is_recorded_elsewhere :
  observed (request unit (reply_after 200 (1 # 10)) still tt
              (create_client (plain 1 1000000 [200]) 0) fresh)
    = Some (Raised NON_RETRYABLE_ERROR, [([EvSend 0], Completed HTTP_OK)]) /\
  observed (request unit (reply_after 200 (1 # 10)) ticks_once tt
              (create_multi_client
                 (with_extra 1 1000000 [] (CircuitBreaker breaker)) 0 [1%nat])
              fresh)
    = Some (Returned HTTP_OK, [([EvSend 0], Completed HTTP_OK)]) /\
  histories (request unit (reply_after 200 (1 # 10)) ticks_once tt
               (create_multi_client
                  (with_extra 1 1000000 [] (CircuitBreaker breaker)) 0 [1%nat])
               fresh)
    = Some [(0%nat, []); (1%nat, [true])].
Proof. repeat split. Qed.


(** *** The theorems at work *)

Lemma request_success_witness :
  exists run,
    request unit (reply_after 200 (1 # 10)) still tt
      (create_multi_client (with_extra 1 1000000 [] (CircuitBreaker breaker))
         0 [1%nat]) fresh = Some run /\
    r_result run = Returned HTTP_OK /\
    forall a, In a (r_log run) -> a_events a = [EvSend 1].
Proof.
  destruct (request_success unit (reply_after 200 (1 # 10)) still tt
              (create_multi_client
                 (with_extra 1 1000000 [] (CircuitBreaker breaker)) 0 [1%nat])
              fresh) as (run & Hr & H).
  exists run. split; [exact Hr|].
  vm_compute in Hr. injection Hr as <-.
  destruct (H _ (or_introl eq_refl) eq_refl) as (_ & Hret & _ & Hcb).
  split.
  - apply Hret. vm_compute. intros [].
  - intros a [<-|[]].
    destruct (Hcb breaker eq_refl) as (attempted & Hev & _ & Hag).
    rewrite Hev, (Hag (fun i _ => eq_refl)). reflexivity.
Defined.

Lemma backoff_wait_before_attempt_witness :
  exists run a,
    request unit (reply_after 500 (1 # 10)) still tt
      (create_client (with_extra 4 5000000 [400] (Backoff backoff_100ms)) 0)
      fresh = Some run /\
    nth_error (r_log run) 2 = Some a /\
    exists rest,
      a_events a = EvWait (total_seconds 100000 * 2 ^ (Z.of_nat 3 - 2))%Q :: rest.
Proof.
  destruct (backoff_wait_before_attempt unit (reply_after 500 (1 # 10)) still tt
              backoff_100ms
              (create_client (with_extra 4 5000000 [400] (Backoff backoff_100ms)) 0)
              fresh eq_refl eq_refl) as (run & Hr & H).
  exists run.
  assert (Hr' := Hr). vm_compute in Hr'. injection Hr' as <-.
  eexists. split; [exact Hr|]. split; [reflexivity|].
  destruct (H 3%nat _ ltac:(lia) eq_refl) as (_ & Hw).
  destruct (Hw ltac:(lia)) as ((rest & Hev & _) & _).
  exists rest. exact Hev.
Defined.

Lemma request_zero_retries_witness :
  request unit (reply_after 200 (1 # 10)) still tt
    (create_client (plain 0 1000000 []) 0) fresh
  = Some {| r_result := Raised MAX_RETRIES_EXCEEDED;
            r_client := create_client (plain 0 1000000 []) 0;
            r_world := fresh; r_log := [] |}.
Proof.
  apply (request_zero_retries unit (reply_after 200 (1 # 10)) still tt
           (create_client (plain 0 1000000 []) 0) fresh);
    [reflexivity|simpl; lia].
Defined.

Lemma hedging_single_send_witness :
  exists run,
    request unit (reply_after 200 (1 # 10)) still tt
      (create_multi_client (with_extra 1 5000000 [] (Hedging hedge_1s))
         0 [1%nat; 2%nat]) fresh = Some run /\
    forall a, In a (r_log run) -> a_events a = [EvSend 0].
Proof.
  destruct (hedging_single_send unit (reply_after 200 (1 # 10)) still tt
              hedge_1s
              (create_multi_client (with_extra 1 5000000 [] (Hedging hedge_1s))
                 0 [1%nat; 2%nat]) fresh eq_refl) as (run & Hr & H).
  exists run. split; [exact Hr|].
  intros a Hin.
  assert (Hlt : (latency (reply_after 200 (1 # 10) tt
                   (fst (fst (_select_sender still (a_client a) (a_world a))))
                   (sent (a_world a)))
                 < total_seconds (hedging_delay hedge_1s))%Q)
    by reflexivity.
  destruct (H a Hin Hlt) as [Hev _].
  vm_compute in Hr. injection Hr as <-.
  destruct Hin as [<-|[]]. exact Hev.
Defined.

Lemma record_appends_and_opens_witness :
  _last_results failed_at_0 = [false] /\ _recover_at failed_at_0 = 2000000.
Proof.
  pose proof (record_appends_and_opens 0 (init breaker 0)) as H.
  cbv zeta in H.
  destruct H as (H1 & H2 & _); [simpl; lia|simpl; lia|].
  split; [exact H1|].
  apply H2. vm_compute. discriminate.
Defined.

Lemma recovery_time_signed_witness :
  recovery_time 0 failed_at_0 = Z.max 0 (_recover_at failed_at_0 - 0).
Proof.
  apply (recovery_time_signed 0 failed_at_0). vm_compute. discriminate.
Defined.

Lemma history_bounded_and_rate_witness :
  failure_rate (records (init breaker 0) [Record_failure 0; Record_success])
  = (inject_Z 1 / inject_Z 2)%Q.
Proof.
  apply (history_bounded_and_rate breaker 0 [Record_failure 0; Record_success]).
  discriminate.
Defined.

End Runs.

(** * Further properties *)

(** ** The circuit breaker of one sender, continued *)

Section BreakerCoverage.
Import Breaker Notions.

Lemma failures_le_length (h : list bool) : (failures h <= length h)%nat.
Proof.
  rewrite failures_count. apply count_occ_bound.
Qed.

(** X1: the failure rate of a sender is a fraction: at least 0 and at most
    1, whatever its history. *)
Theorem failure_rate_between_0_and_1 (m : ManagedSender) :
  (0 <= failure_rate m <= 1)%Q.
Proof.
  unfold failure_rate.
  destruct (_last_results m) as [|x h] eqn:E; [split; discriminate|].
  rewrite <- E.
  assert (Hlen : (0 < length (_last_results m))%nat) by (rewrite E; simpl; lia).
  pose proof (failures_le_length (_last_results m)) as Hf.
  assert (Hpos : (0 < inject_Z (Z.of_nat (length (_last_results m))))%Q).
  { change 0%Q with (inject_Z 0). rewrite <- Zlt_Qlt. lia. }
  split.
  - apply Qle_shift_div_l; [exact Hpos|]. rewrite Qmult_0_l.
    change 0%Q with (inject_Z 0). rewrite <- Zle_Qle. lia.
  - apply Qle_shift_div_r; [exact Hpos|]. rewrite Qmult_1_l.
    rewrite <- Zle_Qle. lia.
Qed.

Lemma records_app (m : ManagedSender) (calls calls' : list Record_call) :
  records m (calls ++ calls') = records (records m calls) calls'.
Proof. unfold records. apply fold_left_app. Qed.

Lemma record_last_results (m : ManagedSender) (call : Record_call) :
  _last_results (record m call)
  = deque_append (window_size (_strategy m)) (_last_results m) (entry_of call).
Proof.
  destruct call; simpl; [reflexivity|].
  unfold record_failure. destruct (Qle_bool _ _); reflexivity.
Qed.

Lemma tl_skipn (A : Type) (k : nat) (l : list A) : tl (skipn k l) = skipn (S k) l.
Proof.
  revert l. induction k as [|k IH]; intros l.
  - destruct l as [|x l]; reflexivity.
  - destruct l as [|x l]; [reflexivity|]. exact (IH l).
Qed.

Lemma deque_append_lastn (w : nat) (l : list bool) (x : bool) :
  deque_append w (lastn w l) x = lastn w (l ++ [x]).
Proof.
  unfold deque_append, lastn.
  destruct w as [|w].
  { (* an empty window keeps nothing *)
    rewrite !Nat.sub_0_r, !skipn_all. reflexivity. }
  rewrite !length_app, length_skipn. simpl length.
  destruct (Nat.le_gt_cases (S w) (length l)) as [Hge|Hlt].
  - replace (length l - (length l - S w) + 1)%nat with (S (S w)) by lia.
    destruct (Nat.ltb_spec (S w) (S (S w))); [|lia].
    replace (length l + 1 - S w)%nat with (S (length l - S w)) by lia.
    rewrite skipn_app.
    replace (S (length l - S w) - length l)%nat with 0%nat by lia.
    change (skipn 0 [x]) with [x].
    rewrite <- (tl_skipn _ (length l - S w) l).
    destruct (skipn (length l - S w) l) eqn:E; [|reflexivity].
    exfalso. apply (f_equal (@length bool)) in E.
    rewrite length_skipn in E. simpl in E. lia.
  - replace (length l - S w)%nat with 0%nat by lia.
    replace (length l + 1 - S w)%nat with 0%nat by lia.
    simpl skipn. rewrite Nat.sub_0_r.
    destruct (Nat.ltb_spec (S w) (length l + 1)); [lia|reflexivity].
Qed.

Lemma records_last_results (cb : CircuitBreakerStrategy) (s : nat)
  (calls : list Record_call) :
  _last_results (records (init cb s) calls)
  = lastn (window_size cb) (map entry_of calls).
Proof.
  induction calls as [|call calls IH] using rev_ind.
  - unfold lastn. reflexivity.
  - rewrite records_app. simpl records at 1.
    change (fold_left record [call] (records (init cb s) calls))
      with (record (records (init cb s) calls) call).
    rewrite record_last_results, IH.
    destruct (records_window calls (init cb s)) as [E _]; [simpl; lia|].
    rewrite E. simpl _strategy.
    rewrite map_app. simpl map. apply deque_append_lastn.
Qed.

(** X2: the history of a sender is a sliding window: after any calls since
    its creation it holds the entries of the last [window_size] calls, in
    the order of the calls, and of all the calls when they were fewer. *)
Theorem history_is_sliding_window (cb : CircuitBreakerStrategy) (s : nat)
  (calls : list Record_call) :
  _last_results (records (init cb s) calls)
  = lastn (window_size cb) (map entry_of calls).
Proof. apply records_last_results. Qed.

Lemma record_failure_rate (now : Z) (m : ManagedSender) :
  failure_rate (record_failure now m)
  = failure_rate (set_last_results m
      (deque_append (window_size (_strategy m)) (_last_results m) false)).
Proof.
  unfold record_failure. destruct (Qle_bool _ _); reflexivity.
Qed.

(** X3: a failure that brings the failure rate to the threshold opens the
    circuit for [recovery_timeout] from the time of the failure, wherever
    [_recover_at] stood before: the circuit is open at [t] exactly when
    [t < now + recovery_timeout]. A failure below the threshold leaves the
    circuit open or closed as it was. *)
Theorem failure_opens_for_recovery_timeout (now t : Z) (m : ManagedSender) :
  let m' := record_failure now m in
  ((failure_threshold (_strategy m) <= failure_rate m')%Q ->
     (is_circuit_open t m' = true <-> t < now + recovery_timeout (_strategy m)) /\
     recovery_time t m' = now + recovery_timeout (_strategy m) - t) /\
  (~ (failure_threshold (_strategy m) <= failure_rate m')%Q ->
     is_circuit_open t m' = is_circuit_open t m /\
     recovery_time t m' = recovery_time t m).
Proof.
  intro m'. unfold m'. rewrite record_failure_rate.
  unfold record_failure, is_circuit_open, recovery_time.
  destruct (Qle_bool _ _) eqn:E; simpl in *.
  - split.
    + intros _. split; [apply Z.ltb_lt|reflexivity].
    + intro H. exfalso. apply H. now apply Qle_bool_iff.
  - split.
    + intro H. apply Qle_bool_iff in H. simpl in H. congruence.
    + intros _. split; reflexivity.
Qed.

(** X4: on a sender just created, with a window of at least one entry, the
    first failure makes the failure rate 1; so it opens the circuit for
    every threshold up to 1, however wide the window, and leaves it closed
    for a threshold above 1. *)
Theorem first_failure_opens (cb : CircuitBreakerStrategy) (s : nat) (now : Z) :
  (1 <= window_size cb)%nat ->
  let m' := record_failure now (init cb s) in
  (failure_rate m' == 1)%Q /\
  ((failure_threshold cb <= 1)%Q -> _recover_at m' = now + recovery_timeout cb) /\
  ((1 < failure_threshold cb)%Q -> _recover_at m' = datetime_min).
Proof.
  intros Hw m'.
  assert (Hrate : failure_rate m' = (inject_Z 1 / inject_Z 1)%Q).
  { unfold m'. rewrite record_failure_rate. simpl.
    rewrite deque_append_room by (simpl; lia). reflexivity. }
  split; [rewrite Hrate; reflexivity|].
  unfold m', record_failure in *. simpl in *.
  rewrite deque_append_room in * by (simpl; lia).
  change (failure_rate (set_last_results (init cb s) ([] ++ [false])))
    with (inject_Z 1 / inject_Z 1)%Q.
  destruct (Qle_bool (failure_threshold cb) (inject_Z 1 / inject_Z 1)) eqn:E.
  - split; [reflexivity|]. intro H. apply Qle_bool_iff in E.
    exfalso. apply (Qlt_not_le _ _ H). exact E.
  - split; [|reflexivity]. intro H.
    assert (E' : Qle_bool (failure_threshold cb) (inject_Z 1 / inject_Z 1) = true)
      by (apply Qle_bool_iff; exact H).
    congruence.
Qed.

Lemma record_recover_at (m : ManagedSender) (call : Record_call) :
  _recover_at (record m call) = _recover_at m \/
  exists now, call = Record_failure now /\
              _recover_at (record m call) = now + recovery_timeout (_strategy m).
Proof.
  destruct call as [|now]; simpl; [now left|].
  unfold record_failure. destruct (Qle_bool _ _); simpl; [|now left].
  right. now exists now.
Qed.

Lemma records_recover_at (calls : list Record_call) : forall m,
  _recover_at (records m calls) = _recover_at m \/
  exists now, In (Record_failure now) calls /\
              _recover_at (records m calls) = now + recovery_timeout (_strategy m).
Proof.
  induction calls as [|call calls IH]; intro m; [now left|].
  change (records m (call :: calls)) with (records (record m call) calls).
  destruct (IH (record m call)) as [E|(now & Hin & E)].
  - rewrite E. destruct (record_recover_at m call) as [E'|(now & -> & E')].
    + now left.
    + right. exists now. split; [now left|exact E'].
  - right. exists now. rewrite record_strategy in E. split; [now right|exact E].
Qed.

(** X5: a circuit opens only on a recorded failure: after any calls since
    the creation of a sender, [_recover_at] is still [datetime.min] or it is
    the time of one of the recorded failures plus [recovery_timeout]. *)
Theorem recover_at_comes_from_a_failure (cb : CircuitBreakerStrategy) (s : nat)
  (calls : list Record_call) :
  let m := records (init cb s) calls in
  _recover_at m = datetime_min \/
  exists now, In (Record_failure now) calls /\
              _recover_at m = now + recovery_timeout cb.
Proof.
  intro m. exact (records_recover_at calls (init cb s)).
Qed.

Lemma lastn_app_exact (A : Type) (l1 l2 : list A) :
  lastn (length l2) (l1 ++ l2) = l2.
Proof.
  unfold lastn. rewrite length_app.
  replace (length l1 + length l2 - length l2)%nat with (length l1) by lia.
  rewrite skipn_app, skipn_all, Nat.sub_diag. reflexivity.
Qed.

Lemma failures_repeat_true (n : nat) : failures (repeat true n) = 0%nat.
Proof. induction n as [|n IH]; [reflexivity|exact IH]. Qed.

Lemma records_successes_recover_at (n : nat) : forall m,
  _recover_at (records m (repeat Record_success n)) = _recover_at m.
Proof.
  induction n as [|n IH]; intro m; [reflexivity|].
  change (records m (repeat Record_success (S n)))
    with (records (record_success m) (repeat Record_success n)).
  now rewrite IH.
Qed.

(** X6: successes bring the failure rate down but do not close a circuit:
    after [window_size] successes in a row the failure rate is 0, whatever
    was recorded before, and [_recover_at] stands where it stood. *)
Theorem successes_clear_rate_not_circuit (cb : CircuitBreakerStrategy) (s : nat)
  (calls : list Record_call) :
  let m := records (init cb s) calls in
  let m' := records m (repeat Record_success (window_size cb)) in
  (failure_rate m' == 0)%Q /\ _recover_at m' = _recover_at m.
Proof.
  intros m m'. split; [|apply records_successes_recover_at].
  unfold m', m. rewrite <- records_app.
  unfold failure_rate. rewrite records_last_results.
  rewrite map_app.
  replace (map entry_of (repeat Record_success (window_size cb)))
    with (repeat true (window_size cb))
    by (induction (window_size cb) as [|n IH]; [reflexivity|simpl; now rewrite <- IH]).
  assert (H : forall l, lastn (window_size cb) (l ++ repeat true (window_size cb))
                        = repeat true (window_size cb)).
  { intro l. pose proof (lastn_app_exact _ l (repeat true (window_size cb))) as H.
    rewrite repeat_length in H. exact H. }
  rewrite H.
  destruct (repeat true (window_size cb)) eqn:E; [reflexivity|]. rewrite <- E.
  rewrite failures_repeat_true. unfold Qeq, Qdiv, Qmult. simpl. reflexivity.
Qed.

End BreakerCoverage.

(** ** The selection of a sender, continued *)

Section SelectionCoverage.
Import Breaker Notions.

Lemma decorate_snd (reads : nat -> Z) ms : forall i,
  map snd (decorate reads i ms) = ms.
Proof.
  induction ms as [|m ms IH]; intro i; simpl; [reflexivity|]. now rewrite IH.
Qed.

Lemma sorted_In (reads : nat -> Z) ms m : In m (sorted reads ms) <-> In m ms.
Proof.
  unfold sorted. rewrite <- (decorate_snd reads ms 0) at 2.
  rewrite !in_map_iff. split; intros (x & E & Hin); exists x;
    (split; [exact E|]); now apply in_sort_decorated.
Qed.

Lemma select_managed_In (reads : nat -> Z) (ms : list ManagedSender) :
  (select_managed reads ms = None <-> ms = []) /\
  (forall m, select_managed reads ms = Some m -> In m ms).
Proof.
  unfold select_managed. split.
  - split.
    + intro H. destruct ms as [|m0 ms']; [reflexivity|]. exfalso.
      assert (Hin : In m0 (sorted reads (m0 :: ms')))
        by (apply (proj2 (sorted_In reads (m0 :: ms') m0)); now left).
      apply in_rev in Hin. destruct (rev (sorted reads (m0 :: ms'))); [destruct Hin|discriminate].
    + intros ->. reflexivity.
  - intros m H.
    destruct (rev (sorted reads ms)) as [|x l] eqn:E; [discriminate|].
    injection H as ->. apply (proj1 (sorted_In reads ms m)).
    apply in_rev. rewrite E. now left.
Qed.

(** X7: [_select_sender] selects a sender of the dictionary, whatever the
    clock reads, and has nothing to select (the [IndexError] of
    [sorted_senders[-1]]) only when the dictionary is empty. *)
Theorem select_managed_member (reads : nat -> Z) (ms : list ManagedSender) :
  (select_managed reads ms = None <-> ms = []) /\
  (forall m, select_managed reads ms = Some m -> In m ms).
Proof. apply select_managed_In. Qed.

(** X8: when the clock stands still through the call, [_select_sender]
    selects a closed sender whenever there is one, and a sender whose
    failure rate is the least among the senders in the same state, open or
    closed. *)
Theorem select_managed_prefers_closed_and_reliable (now : Z)
  (ms : list ManagedSender) (m : ManagedSender) :
  select_managed (fun _ => now) ms = Some m ->
  (forall m', In m' ms -> is_circuit_open now m' = false ->
              is_circuit_open now m = false) /\
  (forall m', In m' ms -> is_circuit_open now m' = is_circuit_open now m ->
              (failure_rate m <= failure_rate m')%Q).
Proof.
  intro H. destruct (select_managed_best now ms m H) as [_ Hbest]. split.
  - intros m' Hin Hclosed. destruct (Hbest m' Hin) as (H1 & _).
    destruct (is_circuit_open now m); [|reflexivity].
    rewrite (H1 eq_refl) in Hclosed. discriminate.
  - intros m' Hin Hsame. destruct (Hbest m' Hin) as (_ & H2 & _).
    apply H2. now symmetry.
Qed.

Lemma sort_decorated_level l :
  (forall x y, In x l -> In y l -> key_lt (fst x) (fst y) = false) ->
  sort_decorated l = l.
Proof.
  induction l as [|x l IH]; intro H; [reflexivity|].
  simpl. rewrite IH by (intros; apply H; now right).
  destruct l as [|y l']; [reflexivity|]. simpl.
  rewrite (H y x) by (simpl; tauto). reflexivity.
Qed.

Lemma last_cons_default (A : Type) (l : list A) : forall (x d : A),
  last (x :: l) d = last l x.
Proof.
  induction l as [|y l IH]; intros x d; [reflexivity|].
  change (last (x :: y :: l) d) with (last (y :: l) d).
  rewrite (IH y d), (IH y x). reflexivity.
Qed.

(** X9: among senders that do not differ in what is compared (all open or
    all closed at [now], equal failure rates, the same [_recover_at]) and
    on a clock that stands still, [_select_sender] selects the last sender
    of the dictionary. *)
Theorem select_managed_tie_goes_to_last (now : Z) (m0 : ManagedSender)
  (rest : list ManagedSender) :
  (forall m, In m rest ->
     is_circuit_open now m = is_circuit_open now m0 /\
     (failure_rate m == failure_rate m0)%Q /\
     _recover_at m = _recover_at m0) ->
  select_managed (fun _ => now) (m0 :: rest) = Some (last rest m0).
Proof.
  intro H.
  assert (Hall : forall m, In m (m0 :: rest) ->
            is_circuit_open now m = is_circuit_open now m0 /\
            (failure_rate m == failure_rate m0)%Q /\
            _recover_at m = _recover_at m0).
  { intros m [<-|Hin]; [repeat split; reflexivity|now apply H]. }
  unfold select_managed, sorted. rewrite decorate_const.
  rewrite sort_decorated_level.
  - rewrite map_map. simpl map at 1. rewrite map_id.
    destruct (hd_rev_last _ (m0 :: rest) m0) as [tl E]; [discriminate|].
    rewrite E, last_cons_default. reflexivity.
  - intros x y Hx Hy.
    apply in_map_iff in Hx. destruct Hx as (mx & <- & Hx).
    apply in_map_iff in Hy. destruct Hy as (my & <- & Hy).
    destruct (Hall mx Hx) as (X1 & X2 & X3).
    destruct (Hall my Hy) as (Y1 & Y2 & Y3).
    apply key_lt_false. unfold sort_key, recovery_time. simpl.
    rewrite X1, Y1, X3, Y3.
    repeat split; intros; try assumption; try lra; lia.
Qed.

End SelectionCoverage.

(** ** The request loop, continued *)

Section RequestCoverage.
Import Breaker Dispatch Notions.

Variable Payload : Type.
Variable send : Payload -> nat -> nat -> Reply.
Variable wall : nat -> Z.
Variable payload : Payload.

Abbreviation make_request' := (_make_request Payload send wall payload).
Abbreviation Runs' := (runs Payload send wall payload).
Abbreviation request' := (request Payload send wall payload).

Lemma retried_same c c' a :
  strategy c' = strategy c -> retried c' a = retried c a.
Proof.
  intro E. unfold retried. destruct (a_outcome a); try reflexivity.
  now rewrite (is_fast_same c c' result E).
Qed.

Lemma retried_spec c a :
  retried c a = true <->
  exists result, a_outcome a = Completed result /\ result <> HTTP_OK /\
                 ~ In result (fast_errors (strategy c)).
Proof.
  unfold retried. destruct (a_outcome a) as [result| |].
  - rewrite andb_true_iff, !negb_true_iff, Z.eqb_neq. split.
    + intros [Hf Hok]. exists result. repeat split; [exact Hok|].
      intro Hin. apply is_fast_In in Hin. congruence.
    + intros (r & E & Hok & Hf). injection E as <-. split; [|exact Hok].
      destruct (is_fast c result) eqn:Ef; [|reflexivity].
      exfalso. apply Hf. now apply is_fast_In.
  - split; [discriminate|]. intros (r & E & _). discriminate.
  - split; [discriminate|]. intros (r & E & _). discriminate.
Qed.

Ltac runs_cases H :=
  induction H as
    [c w Hm | c w Hm Hb
    | c w c1 w1 evs d Hm Hb E | c w c1 w1 evs d Hm Hb E
    | c w c1 w1 evs d result Hm Hb E Hf
    | c w c1 w1 evs d result Hm Hb E Hf Hok
    | c w c1 w1 evs d result run Hm Hb E Hf Hok Hrun IH];
  try (pose proof (make_request_same _ _ _ _ _ _ _ _ _ _ _ _ E)
         as (Ec & Es & Ef & Er & Ea & Et)).

Lemma retried_attempt c w evs result :
  is_fast c result = false -> result <> HTTP_OK ->
  retried c (attempt c w evs (Completed result)) = true.
Proof.
  intros Hf Hok. unfold retried. simpl. rewrite Hf. simpl.
  apply negb_true_iff. now apply Z.eqb_neq.
Qed.

(** What a call leaves alone. *)
Lemma runs_keeps c w run :
  Runs' c w run ->
  class (r_client run) = class c /\ strategy (r_client run) = strategy c /\
  _senders (r_client run) = _senders c.
Proof.
  intro H. runs_cases H; simpl; unfold _senders in *;
    try (repeat split; congruence).
  destruct IH as (I1 & I2 & I3). simpl in *.
  repeat split; congruence.
Qed.

(** The attempts before the last were retried. *)
Lemma runs_retried_before_last c w run :
  Runs' c w run ->
  forall i a, nth_error (r_log run) i = Some a ->
              (S i < length (r_log run))%nat -> retried c a = true.
Proof.
  intro H. runs_cases H; simpl; intros i a Hn Hl; try lia.
  destruct i as [|i].
  - injection Hn as <-. now apply retried_attempt.
  - rewrite <- (retried_same c _ a Es). apply (IH i a Hn). lia.
Qed.

(** The counter counts the attempts retried. *)
Lemma runs_counter c w run :
  Runs' c w run ->
  _current_attempt (r_client run)
  = _current_attempt c + Z.of_nat (length (filter (retried c) (r_log run))).
Proof.
  intro H. runs_cases H; simpl; try lia.
  - unfold retried. simpl. rewrite Hf. simpl. lia.
  - unfold retried. simpl. rewrite Hf. subst result. simpl. lia.
  - rewrite retried_attempt by assumption. simpl length.
    rewrite IH. simpl.
    rewrite (filter_ext (retried _) (retried c))
      by (intro a; apply retried_same; exact Es).
    lia.
Qed.

(** An attempt that ends the call is not counted. *)
Lemma runs_uncounted c w run :
  Runs' c w run ->
  forall a, In a (r_log run) -> retried c a = false ->
    (exists before, r_log run = before ++ [a]) /\
    _current_attempt (r_client run) = _current_attempt (a_client a) /\
    _time_spent (r_client run) = _time_spent (a_client a).
Proof.
  intro H. runs_cases H; simpl; intros a Hin Hr;
    try (destruct Hin as [<-|[]]; simpl;
         split; [now exists []|split; assumption]).
  - destruct Hin.
  - destruct Hin.
  - destruct Hin as [<-|Hin].
    { rewrite retried_attempt in Hr by assumption. discriminate. }
    rewrite <- (retried_same c _ a Es) in Hr.
    destruct (IH a Hin Hr) as ((before & Eb) & Hc).
    split; [|exact Hc].
    exists (attempt c w evs (Completed result) :: before). now rewrite Eb.
Qed.

(** How a call ends. *)
Lemma runs_returned c w run :
  Runs' c w run ->
  forall result, r_result run = Returned result ->
    result = HTTP_OK /\
    exists a, In a (r_log run) /\ a_outcome a = Completed HTTP_OK.
Proof.
  intro H. runs_cases H; simpl; intros r Hr; try discriminate.
  - injection Hr as <-. subst result.
    split; [reflexivity|]. eexists. split; [now left|reflexivity].
  - destruct (IH r Hr) as (Eok & a & Hin & Ho).
    split; [exact Eok|]. exists a. split; [now right|exact Ho].
Qed.

Lemma runs_breaker_open_iff c w run :
  Runs' c w run ->
  (r_result run = Raised CIRCUIT_BREAKER_OPEN <->
   exists a, In a (r_log run) /\ a_outcome a = BreakerOpen).
Proof.
  intro H. runs_cases H; simpl.
  - split; [discriminate|intros (a & [] & _)].
  - split; [discriminate|intros (a & [] & _)].
  - split; [discriminate|intros (a & [<-|[]] & Ho); discriminate].
  - split; [intros _|reflexivity]. eexists. split; [now left|reflexivity].
  - split; [discriminate|intros (a & [<-|[]] & Ho); discriminate].
  - split; [discriminate|intros (a & [<-|[]] & Ho); discriminate].
  - rewrite IH. split.
    + intros (a & Hin & Ho). exists a. split; [now right|exact Ho].
    + intros (a & [<-|Hin] & Ho); [discriminate|eauto].
Qed.

Lemma runs_timed_out c w run :
  Runs' c w run ->
  forall a, In a (r_log run) -> a_outcome a = TimedOut ->
    r_result run = Raised LATENCY_BUDGET_EXHAUSTED.
Proof.
  intro H. runs_cases H; simpl; intros a Hin Ho;
    try (destruct Hin as [<-|[]]; try discriminate Ho; reflexivity).
  - destruct Hin.
  - destruct Hin.
  - destruct Hin as [<-|Hin]; [discriminate|]. now apply (IH a).
Qed.

Lemma runs_latency c w run :
  Runs' c w run ->
  r_result run = Raised LATENCY_BUDGET_EXHAUSTED ->
  (exists a, In a (r_log run) /\ a_outcome a = TimedOut) \/
  latency_budget (strategy c) <= _time_spent (r_client run).
Proof.
  intro H. runs_cases H; simpl; intro Hr; try discriminate.
  - right. unfold remaining in Hb. lia.
  - left. eexists. split; [now left|reflexivity].
  - destruct (IH Hr) as [(a & Hin & Ho)|Hle].
    + left. exists a. split; [now right|exact Ho].
    + right. simpl in Hle. rewrite Es in Hle. exact Hle.
Qed.

Lemma runs_max_retries_exceeded c w run :
  Runs' c w run ->
  r_result run = Raised MAX_RETRIES_EXCEEDED ->
  max_retries (strategy c) <= _current_attempt (r_client run) /\
  forall a, In a (r_log run) -> retried c a = true.
Proof.
  intro H. runs_cases H; simpl; intro Hr; try discriminate.
  - split; [exact Hm|intros a []].
  - destruct (IH Hr) as [Hle Hall]. simpl in Hle. rewrite Es in Hle.
    split; [exact Hle|].
    intros a [<-|Hin]; [now apply retried_attempt|].
    rewrite <- (retried_same c _ a Es). now apply Hall.
Qed.

(** X10: [request] returns nothing but HTTP 200, and it returns it only
    when an attempt of the call completed with 200. *)
Theorem request_returns_only_ok (c : Client) (w : World) :
  exists run,
    request' c w = Some run /\
    forall result, r_result run = Returned result ->
      result = HTTP_OK /\
      exists a, In a (r_log run) /\ a_outcome a = Completed HTTP_OK.
Proof.
  destruct (request_runs Payload send wall payload c w) as (run & Hr & Hruns).
  exists run. split; [exact Hr|]. exact (runs_returned c w run Hruns).
Qed.

(** X11: every attempt of a call but the last completed with a failure that
    is retried: a status other than 200 and outside [fast_errors]. A
    timeout, an open circuit, a success or a fast error is met in the last
    attempt only. *)
Theorem attempts_before_last_were_retried (c : Client) (w : World) :
  exists run,
    request' c w = Some run /\
    forall i a, nth_error (r_log run) i = Some a ->
      (S i < length (r_log run))%nat ->
      exists result, a_outcome a = Completed result /\ result <> HTTP_OK /\
                     ~ In result (fast_errors (strategy c)).
Proof.
  destruct (request_runs Payload send wall payload c w) as (run & Hr & Hruns).
  exists run. split; [exact Hr|].
  intros i a Hn Hl. apply retried_spec.
  exact (runs_retried_before_last c w run Hruns i a Hn Hl).
Qed.

(** X12: the reason of the error tells how the call ended.
    CIRCUIT_BREAKER_OPEN is raised exactly when an attempt met an open
    circuit; an attempt that timed out makes the call raise
    LATENCY_BUDGET_EXHAUSTED, which is otherwise raised only with the budget
    spent; MAX_RETRIES_EXCEEDED is raised only with [_current_attempt] at
    [max_retries] or above and after attempts that were all retried. *)
Theorem error_reason_tells_the_end (c : Client) (w : World) :
  exists run,
    request' c w = Some run /\
    (r_result run = Raised CIRCUIT_BREAKER_OPEN <->
       exists a, In a (r_log run) /\ a_outcome a = BreakerOpen) /\
    (forall a, In a (r_log run) -> a_outcome a = TimedOut ->
       r_result run = Raised LATENCY_BUDGET_EXHAUSTED) /\
    (r_result run = Raised LATENCY_BUDGET_EXHAUSTED ->
       (exists a, In a (r_log run) /\ a_outcome a = TimedOut) \/
       latency_budget (strategy c) <= _time_spent (r_client run)) /\
    (r_result run = Raised MAX_RETRIES_EXCEEDED ->
       max_retries (strategy c) <= _current_attempt (r_client run) /\
       forall a, In a (r_log run) -> retried c a = true).
Proof.
  destruct (request_runs Payload send wall payload c w) as (run & Hr & Hruns).
  exists run. split; [exact Hr|].
  split; [exact (runs_breaker_open_iff c w run Hruns)|].
  split; [exact (runs_timed_out c w run Hruns)|].
  split; [exact (runs_latency c w run Hruns)|].
  exact (runs_max_retries_exceeded c w run Hruns).
Qed.

(** X13: a call changes neither the class, nor the strategy, nor the senders
    of a client, and it adds to [_current_attempt] the number of its
    attempts that were retried, no more and no less. *)
Theorem attempts_counted (c : Client) (w : World) :
  exists run,
    request' c w = Some run /\
    class (r_client run) = class c /\
    strategy (r_client run) = strategy c /\
    _senders (r_client run) = _senders c /\
    _current_attempt (r_client run)
      = _current_attempt c + Z.of_nat (length (filter (retried c) (r_log run))).
Proof.
  destruct (request_runs Payload send wall payload c w) as (run & Hr & Hruns).
  exists run. split; [exact Hr|].
  destruct (runs_keeps c w run Hruns) as (K1 & K2 & K3).
  repeat split; try assumption. exact (runs_counter c w run Hruns).
Qed.

(** X14: the attempt in which a call ends (with a success, a fast error, a
    timeout or an open circuit) is the last of the call and is not counted:
    [_current_attempt] and [_time_spent] are after the call what they were
    when that attempt began. *)
Theorem ending_attempt_not_counted (c : Client) (w : World) :
  exists run,
    request' c w = Some run /\
    forall a, In a (r_log run) -> retried c a = false ->
      (exists before, r_log run = before ++ [a]) /\
      _current_attempt (r_client run) = _current_attempt (a_client a) /\
      _time_spent (r_client run) = _time_spent (a_client a).
Proof.
  destruct (request_runs Payload send wall payload c w) as (run & Hr & Hruns).
  exists run. split; [exact Hr|]. exact (runs_uncounted c w run Hruns).
Qed.

(** X15: a client is used up by MAX_RETRIES_EXCEEDED: once a call has
    raised it, every later call on the same client raises it at once,
    without an attempt. *)
Theorem exhausted_client_stays_exhausted (c : Client) (w : World) :
  exists run,
    request' c w = Some run /\
    (r_result run = Raised MAX_RETRIES_EXCEEDED ->
     forall w', request' (r_client run) w'
                = Some (raise MAX_RETRIES_EXCEEDED (r_client run) w' [])).
Proof.
  destruct (request_runs Payload send wall payload c w) as (run & Hr & Hruns).
  exists run. split; [exact Hr|].
  intros Hmax w'.
  destruct (runs_max_retries_exceeded c w run Hruns Hmax) as [Hle _].
  destruct (runs_keeps c w run Hruns) as (_ & Es & _).
  unfold request. rewrite loop_unfold. rewrite Es.
  destruct (Z.leb_spec (max_retries (strategy c)) (_current_attempt (r_client run)));
    [reflexivity|lia].
Qed.

(** *** Time *)

Lemma round_half_even_nonneg (q : Q) : (0 <= q)%Q -> 0 <= round_half_even q.
Proof.
  intro H. unfold round_half_even.
  assert (Hf : 0 <= Qfloor q).
  { change 0 with (Qfloor 0). now apply Qfloor_resp_le. }
  destruct (Qltb _ _); [lia|].
  destruct (Qltb _ _); [lia|].
  destruct (Z.even _); lia.
Qed.

Lemma Qmax0_nonneg (q : Q) : (0 <= Qmax0 q)%Q.
Proof.
  unfold Qmax0. destruct (Qle_bool 0 q) eqn:E; [now apply Qle_bool_iff|].
  apply Qle_refl.
Qed.

Abbreviation punctual := (Notions.punctual send payload).

(** A completed attempt took less than the time allowed, and, with senders
    that answer after their sends, no less than no time. *)
Lemma make_request_duration c w t result c1 w1 evs d :
  make_request' c w t = (Completed result, c1, w1, evs, d) ->
  (d < t)%Q /\ (punctual -> (0 <= d)%Q).
Proof.
  assert (HC : forall c w t u c1 w1 evs d,
    Client_make_request Payload send wall payload c w t u
      = (Completed result, c1, w1, evs, d) ->
    (d < t)%Q /\ (punctual -> (0 <= u)%Q -> (0 <= d)%Q)).
  { clear. intros c w t u c1 w1 evs d H. unfold Client_make_request in H.
    destruct (_select_sender wall c w) as [[s c'] w'].
    destruct (Qltb _ t) eqn:E; [|discriminate].
    injection H as _ _ _ _ <-. split; [now apply Qltb_lt|].
    intros Hp Hu. specialize (Hp s (sent w')). lra. }
  unfold _make_request. intro H.
  destruct (class c) eqn:Ec.
  - destruct (HC _ _ _ _ _ _ _ _ H) as [L N].
    split; [exact L|]. intro Hp. apply N; [exact Hp|apply Qle_refl].
  - unfold Backoff_make_request in H.
    destruct (0 <? _current_attempt c).
    + destruct (Qltb _ t); [|discriminate].
      destruct (Client_make_request _ _ _ _ _ _ _ _) as [[[[o' c'] w'] evs'] d'] eqn:E.
      injection H as -> _ _ _ <-.
      destruct (HC _ _ _ _ _ _ _ _ E) as [L N].
      split; [exact L|]. intro Hp. apply N; [exact Hp|apply Qmax0_nonneg].
    + destruct (HC _ _ _ _ _ _ _ _ H) as [L N].
      split; [exact L|]. intro Hp. apply N; [exact Hp|apply Qle_refl].
  - destruct (HC _ _ _ _ _ _ _ _ H) as [L N].
    split; [exact L|]. intro Hp. apply N; [exact Hp|apply Qle_refl].
  - unfold Hedging_make_request in H.
    destruct (_select_sender wall c w) as [[s c'] w'].
    destruct (Qltb (latency _) (total_seconds _)).
    + destruct (Qltb _ t) eqn:E; [|discriminate].
      injection H as _ _ _ _ <-. split; [now apply Qltb_lt|].
      intro Hp. apply Hp.
    + destruct (Qltb _ t); [|discriminate].
      match type of H with context [first_completed ?b ?l] =>
        pose proof (first_completed_in l b) as Hin;
        destruct (first_completed b l) as [t' r'] end.
      destruct (Qltb t' t) eqn:E; [|discriminate].
      injection H as _ _ _ _ <-. split; [now apply Qltb_lt|].
      intro Hp. destruct Hin as [Hin|Hin].
      * injection Hin as -> _. apply Hp.
      * apply in_map_iff in Hin. destruct Hin as (r0 & E0 & Hin).
        apply fan_out_in in Hin. destruct Hin as (s0 & k0 & ->).
        injection E0 as <- _.
        pose proof (Hp s0 k0). pose proof (Qmax0_nonneg (total_seconds (hedging_delay h))).
        lra.
  - unfold CircuitBreaker_make_request in H.
    destruct (_select_sender wall c w) as [[s c'] w'].
    destruct (is_circuit_open _ _); [discriminate|].
    destruct (Client_make_request _ _ _ _ _ _ _ _) as [[[[o' c''] w''] evs'] d'] eqn:E.
    destruct o'; [|discriminate..].
    assert (result0 = result /\ d' = d) as [-> ->]
      by (destruct (result0 =? HTTP_OK); injection H as -> _ _ _ ->; now split).
    destruct (HC _ _ _ _ _ _ _ _ E) as [L N].
    split; [exact L|]. intro Hp. apply N; [exact Hp|apply Qle_refl].
Qed.

Lemma runs_time c w run :
  Runs' c w run -> punctual -> _time_spent c <= _time_spent (r_client run).
Proof.
  intro H. runs_cases H; simpl; intro Hp; try lia.
  specialize (IH Hp). simpl in IH.
  destruct (make_request_duration _ _ _ _ _ _ _ _ E) as [_ Hnn].
  assert (0 <= timedelta_of_seconds d).
  { apply round_half_even_nonneg. specialize (Hnn Hp).
    apply Qmult_le_0_compat; [exact Hnn|discriminate]. }
  lia.
Qed.

(** X16: an attempt begins only while budget is left: when an attempt of a
    call begins, [_time_spent] is below [latency_budget]. And with senders
    whose latencies are not negative, [_time_spent] does not go down over a
    call. *)
Theorem attempts_begin_within_budget (c : Client) (w : World) :
  exists run,
    request' c w = Some run /\
    (forall a, In a (r_log run) ->
       _time_spent (a_client a) < latency_budget (strategy c)) /\
    ((forall s k, (0 <= latency (send payload s k))%Q) ->
     _time_spent c <= _time_spent (r_client run)).
Proof.
  destruct (request_runs Payload send wall payload c w) as (run & Hr & Hruns).
  exists run. split; [exact Hr|]. split; [|exact (runs_time c w run Hruns)].
  intros a Hin. destruct (In_nth_error _ _ Hin) as [i Hn].
  destruct (runs_log Payload send wall payload c w run Hruns i a Hn)
    as (_ & Es & _ & _ & Hb & _).
  unfold remaining in Hb. rewrite Es in Hb. lia.
Qed.

(** *** Rotation and hedging *)

Lemma rotates_same c c' : class c' = class c -> rotates c' <-> rotates c.
Proof. unfold rotates, hedges. now intros ->. Qed.

Lemma select_sender_rotates c w :
  rotates c ->
  _select_sender wall c w
  = (cycle_at c (_senders_cycle c),
     set_sender (set_cycle c (S (_senders_cycle c)))
       (cycle_at c (_senders_cycle c)), w).
Proof.
  unfold _select_sender, cycle_at. intros [E|[h E]]; rewrite E; reflexivity.
Qed.

(** What a hedged attempt sends: to the main sender alone, or to the main
    sender and then to every sender that is not the main one. *)
Lemma hedging_attempt_shape h c w t o c1 w1 evs d :
  class c = HedgingMultiClient_ h ->
  make_request' c w t = (o, c1, w1, evs, d) ->
  let main := cycle_at c (_senders_cycle c) in
  _senders_cycle c1 = S (_senders_cycle c) /\
  (evs = [EvSend main] \/
   evs = EvSend main
         :: map EvSend (filter (fun s => negb (s =? main)%nat) (_senders c))).
Proof.
  intros Ec H main. unfold _make_request in H. rewrite Ec in H.
  unfold Hedging_make_request in H.
  rewrite select_sender_rotates in H by (right; now exists h).
  fold main in H.
  destruct (Qltb (latency _) (total_seconds _)).
  - destruct (Qltb _ t); injection H as _ <- _ <- _; split; auto.
  - destruct (Qltb _ t).
    + destruct (first_completed _ _) as [t' r'].
      destruct (Qltb t' t); injection H as _ <- _ <- _; split; auto.
    + injection H as _ <- _ <- _; split; auto.
Qed.

Lemma make_request_cycle c w t o c1 w1 evs d :
  rotates c ->
  make_request' c w t = (o, c1, w1, evs, d) ->
  _senders_cycle c1 = S (_senders_cycle c) /\
  exists rest, evs = EvSend (cycle_at c (_senders_cycle c)) :: rest.
Proof.
  intros [Ec|[h Ec]] H.
  - unfold _make_request in H. rewrite Ec in H.
    unfold Client_make_request in H.
    rewrite select_sender_rotates in H by (now left).
    destruct (Qltb _ t); injection H as _ <- _ <- _; split; eauto.
  - destruct (hedging_attempt_shape h _ _ _ _ _ _ _ _ Ec H) as [Hc [->| ->]];
      split; eauto.
Qed.

Lemma runs_log_cycle c w run :
  Runs' c w run -> rotates c ->
  forall i a, nth_error (r_log run) i = Some a ->
    _senders_cycle (a_client a) = (_senders_cycle c + i)%nat /\
    _senders (a_client a) = _senders c /\
    senders_first (a_client a) = senders_first c.
Proof.
  intro H. runs_cases H; simpl; intros Hrot i a Hn;
    try (destruct i as [|i]; [|destruct i; discriminate];
         injection Hn as <-; simpl; repeat split; lia).
  - destruct i; discriminate.
  - destruct i; discriminate.
  - destruct i as [|i].
    + injection Hn as <-. simpl. repeat split; lia.
    + destruct (make_request_cycle _ _ _ _ _ _ _ _ Hrot E) as [Hc _].
      destruct (IH (proj2 (rotates_same c _ Ec) Hrot) i a Hn) as (I1 & I2 & I3).
      simpl in I1, I2, I3. unfold _senders in *. simpl in I2.
      rewrite Ef, Er in I2. rewrite Ef in I3.
      repeat split; [lia|exact I2|exact I3].
Qed.

Lemma cycle_at_same c c' k :
  _senders c' = _senders c -> senders_first c' = senders_first c ->
  cycle_at c' k = cycle_at c k.
Proof. unfold cycle_at. now intros -> ->. Qed.

(** X17: a [MultiClient], and a [HedgingMultiClient] for its main sender,
    goes round its senders in their order: the [i]-th attempt of a call,
    counted from 0, sends first to the sender at position
    [(k + i) mod n] of the [n] senders, where [k] sends were made through
    the cycle before the call. *)
Theorem senders_taken_in_rotation (c : Client) (w : World) :
  class c = MultiClient_ \/ hedges c ->
  exists run,
    request' c w = Some run /\
    forall i a, nth_error (r_log run) i = Some a ->
      exists rest,
        a_events a
        = EvSend (nth ((_senders_cycle c + i) mod length (_senders c))
                      (_senders c) (senders_first c)) :: rest.
Proof.
  intro Hrot.
  destruct (request_runs Payload send wall payload c w) as (run & Hr & Hruns).
  exists run. split; [exact Hr|].
  intros i a Hn.
  destruct (runs_log_cycle c w run Hruns Hrot i a Hn) as (Hc & Hs & Hf).
  destruct (runs_log Payload send wall payload c w run Hruns i a Hn)
    as (Ac & _ & _ & _ & _ & c1 & w1 & d & E).
  destruct (make_request_cycle _ _ _ _ _ _ _ _
              (proj2 (rotates_same c _ Ac) Hrot) E) as [_ (rest & Hev)].
  exists rest. rewrite Hev, Hc, (cycle_at_same c _ _ Hs Hf). reflexivity.
Qed.

Lemma filter_out_member (p : nat) (l : list nat) :
  In p l -> (length (filter (fun s => negb (s =? p)%nat) l) < length l)%nat.
Proof.
  induction l as [|x l IH]; intros Hin; [destruct Hin|].
  simpl. destruct (Nat.eqb_spec x p) as [->|Hne]; simpl.
  - pose proof (filter_length_le (fun s => negb (s =? p)%nat) l). lia.
  - destruct Hin as [->|Hin]; [congruence|]. specialize (IH Hin). lia.
Qed.

Lemma cycle_at_In c k : In (cycle_at c k) (_senders c).
Proof.
  unfold cycle_at. apply nth_In. apply Nat.mod_upper_bound.
  unfold _senders. simpl. lia.
Qed.

Lemma sends_map_EvSend (l : list nat) : sends (map EvSend l) = length l.
Proof.
  unfold sends. induction l as [|x l IH]; [reflexivity|]. simpl. now rewrite IH.
Qed.

(** X18: a hedged attempt sends to the main sender alone, or, when it
    hedges, to the main sender and then once to every sender that is not
    the main one; so an attempt makes no more sends than there are
    senders. *)
Theorem hedged_attempt_sends (h : HedgingStrategy) (c : Client) (w : World) :
  class c = HedgingMultiClient_ h ->
  exists run,
    request' c w = Some run /\
    forall i a, nth_error (r_log run) i = Some a ->
      let main := nth ((_senders_cycle c + i) mod length (_senders c))
                      (_senders c) (senders_first c) in
      (a_events a = [EvSend main] \/
       a_events a
       = EvSend main
         :: map EvSend (filter (fun s => negb (s =? main)%nat) (_senders c))) /\
      (sends (a_events a) <= length (_senders c))%nat.
Proof.
  intro Ec.
  assert (Hrot : rotates c) by (right; now exists h).
  destruct (request_runs Payload send wall payload c w) as (run & Hr & Hruns).
  exists run. split; [exact Hr|].
  intros i a Hn main.
  destruct (runs_log_cycle c w run Hruns Hrot i a Hn) as (Hc & Hs & Hf).
  destruct (runs_log Payload send wall payload c w run Hruns i a Hn)
    as (Ac & _ & _ & _ & _ & c1 & w1 & d & E).
  rewrite Ec in Ac.
  destruct (hedging_attempt_shape h _ _ _ _ _ _ _ _ Ac E) as [_ Hev].
  rewrite Hc, (cycle_at_same c _ _ Hs Hf), Hs in Hev.
  change (cycle_at c (_senders_cycle c + i)) with main in Hev.
  split; [exact Hev|].
  assert (Hin : In main (_senders c)) by apply cycle_at_In.
  pose proof (filter_out_member main (_senders c) Hin) as Hlt.
  assert (Hpos : (1 <= length (_senders c))%nat) by (unfold _senders; simpl; lia).
  destruct Hev as [-> | ->].
  - exact Hpos.
  - change (sends (EvSend main :: ?l)) with (S (sends l)).
    rewrite sends_map_EvSend. lia.
Qed.

Lemma first_completed_least tasks : forall best,
  (fst (first_completed best tasks) <= fst best)%Q /\
  forall t, In t tasks -> (fst (first_completed best tasks) <= fst t)%Q.
Proof.
  induction tasks as [|t0 tasks IH]; intro best; simpl.
  - split; [apply Qle_refl|intros t []].
  - destruct (Qltb (fst t0) (fst best)) eqn:E.
    + apply Qltb_lt in E. destruct (IH t0) as [I1 I2]. split; [lra|].
      intros t [<-|Hin]; [exact I1|now apply I2].
    + assert (E' : (fst best <= fst t0)%Q).
      { destruct (Qlt_le_dec (fst t0) (fst best)) as [L|L]; [|exact L].
        apply Qltb_lt in L. congruence. }
      destruct (IH best) as [I1 I2]. split; [exact I1|].
      intros t [<-|Hin]; [lra|now apply I2].
Qed.

(** X19: a hedged attempt that completes ends with the earliest reply: it
    lasts no longer than the main sender takes to answer, and, when it
    hedged, no longer than the hedging delay and the latency of any of the
    other senders together. *)
Theorem hedged_attempt_ends_with_earliest (h : HedgingStrategy) (c : Client)
  (w : World) (t : Q) result c1 w1 evs d :
  class c = HedgingMultiClient_ h ->
  make_request' c w t = (Completed result, c1, w1, evs, d) ->
  let main := nth (_senders_cycle c mod length (_senders c)) (_senders c)
                  (senders_first c) in
  let others := filter (fun s => negb (s =? main)%nat) (_senders c) in
  (d <= latency (send payload main (sent w)))%Q /\
  (evs <> [EvSend main] ->
   forall r', In r' (fan_out send payload (sent w + 1) others) ->
     (d <= Qmax0 (total_seconds (hedging_delay h)) + latency r')%Q).
Proof.
  intros Ec H main others. unfold _make_request in H. rewrite Ec in H.
  unfold Hedging_make_request in H.
  rewrite select_sender_rotates in H by (right; now exists h).
  change (cycle_at c (_senders_cycle c)) with main in H.
  simpl sent in H.
  destruct (Qltb (latency _) (total_seconds _)).
  - destruct (Qltb _ t); [|discriminate].
    injection H as _ _ _ <- <-. split; [apply Qle_refl|]. congruence.
  - destruct (Qltb _ t); [|discriminate].
    change (_senders (set_sender (set_cycle c (S (_senders_cycle c))) main))
      with (_senders c) in H.
    fold others in H.
    match type of H with context [first_completed ?b ?l] =>
      pose proof (first_completed_least l b) as [L1 L2];
      destruct (first_completed b l) as [t' r'] end.
    destruct (Qltb t' t); [|discriminate].
    injection H as _ _ _ _ <-. simpl in L1, L2. split; [exact L1|].
    intros _ r0 Hin.
    apply (L2 ((Qmax0 (total_seconds (hedging_delay h)) + latency r0)%Q, status r0)).
    apply in_map_iff. exists r0. split; [reflexivity|exact Hin].
Qed.

(** *** Waiting *)

Lemma make_request_no_wait c w t o c1 w1 evs d :
  (forall b, class c <> BackoffClient_ b) ->
  make_request' c w t = (o, c1, w1, evs, d) ->
  forallb is_send evs = true.
Proof.
  assert (HC : forall c w t u o c1 w1 evs d,
    Client_make_request Payload send wall payload c w t u = (o, c1, w1, evs, d) ->
    forallb is_send evs = true).
  { clear. intros c w t u o c1 w1 evs d H.
    apply Client_make_request_shape in H.
    destruct (_select_sender wall c w) as [[s c'] w'].
    destruct H as (-> & _). reflexivity. }
  intros Hnb H. unfold _make_request in H.
  destruct (class c) eqn:Ec; try (eapply HC; eassumption).
  - exfalso. now apply (Hnb b).
  - unfold Hedging_make_request in H.
    destruct (_select_sender wall c w) as [[s c'] w'].
    destruct (Qltb (latency _) (total_seconds _)).
    + destruct (Qltb _ t); injection H as _ _ _ <- _; reflexivity.
    + destruct (Qltb _ t); [|injection H as _ _ _ <- _; reflexivity].
      destruct (first_completed _ _) as [t' r'].
      assert (Hm : forall l, forallb is_send (map EvSend l) = true)
        by (intro l; induction l; [reflexivity|assumption]).
      destruct (Qltb t' t); injection H as _ _ _ <- _; simpl; apply Hm.
  - unfold CircuitBreaker_make_request in H.
    destruct (_select_sender wall c w) as [[s c'] w'].
    destruct (is_circuit_open _ _); [injection H as _ _ _ <- _; reflexivity|].
    destruct (Client_make_request _ _ _ _ _ _ _ _) as [[[[o' c''] w''] evs'] d'] eqn:E.
    apply HC in E.
    assert (evs = evs') as ->; [|exact E].
    destruct o'; [destruct (result =? HTTP_OK)|..]; now injection H.
Qed.

(** X20: only a [BackoffClient] waits between attempts: in a call on a
    client of any other class every event is a send. *)
Theorem only_backoff_client_waits (c : Client) (w : World) :
  (forall b, class c <> BackoffClient_ b) ->
  exists run,
    request' c w = Some run /\
    forall a delay, In a (r_log run) -> ~ In (EvWait delay) (a_events a).
Proof.
  intro Hnb.
  destruct (request_runs Payload send wall payload c w) as (run & Hr & Hruns).
  exists run. split; [exact Hr|].
  intros a delay Hin Hw.
  destruct (In_nth_error _ _ Hin) as [i Hn].
  destruct (runs_log Payload send wall payload c w run Hruns i a Hn)
    as (Ac & _ & _ & _ & _ & c1 & w1 & d & E).
  assert (Hnb' : forall b, class (a_client a) <> BackoffClient_ b)
    by (intro b; rewrite Ac; apply Hnb).
  pose proof (make_request_no_wait _ _ _ _ _ _ _ _ Hnb' E) as Hall.
  rewrite forallb_forall in Hall. specialize (Hall _ Hw). discriminate.
Qed.

Lemma Qltb_not_lt (a b : Q) : (b <= a)%Q -> Qltb a b = false.
Proof.
  intro H. unfold Qltb. apply negb_false_iff. now apply Qle_bool_iff.
Qed.

Lemma backoff_wait_too_long b c w t o c1 w1 evs d :
  class c = BackoffClient_ b ->
  0 < _current_attempt c ->
  (t <= Qmax0 (backoff_delay b (_current_attempt c)))%Q ->
  make_request' c w t = (o, c1, w1, evs, d) ->
  o = TimedOut /\ evs = [EvWait (backoff_delay b (_current_attempt c))].
Proof.
  intros Ec Hc Ht H. unfold _make_request in H. rewrite Ec in H.
  unfold Backoff_make_request in H.
  destruct (Z.ltb_spec 0 (_current_attempt c)); [|lia].
  apply Qltb_not_lt in Ht. rewrite Ht in H.
  injection H as <- _ _ <- _. now split.
Qed.

(** X21: a backoff wait that does not fit into what is left of the budget
    ends the call: the attempt calls [_wait] and sends nothing, it times
    out, and the call raises LATENCY_BUDGET_EXHAUSTED. *)
Theorem backoff_wait_over_budget (b : BackoffStrategy) (c : Client) (w : World) :
  class c = BackoffClient_ b ->
  exists run,
    request' c w = Some run /\
    forall a, In a (r_log run) ->
      0 < _current_attempt (a_client a) ->
      (total_seconds (remaining (a_client a))
         <= Qmax0 (backoff_delay b (_current_attempt (a_client a))))%Q ->
      a_events a = [EvWait (backoff_delay b (_current_attempt (a_client a)))] /\
      a_outcome a = TimedOut /\
      r_result run = Raised LATENCY_BUDGET_EXHAUSTED.
Proof.
  intro Ec.
  destruct (request_runs Payload send wall payload c w) as (run & Hr & Hruns).
  exists run. split; [exact Hr|].
  intros a Hin Hc Ht.
  destruct (In_nth_error _ _ Hin) as [i Hn].
  destruct (runs_log Payload send wall payload c w run Hruns i a Hn)
    as (Ac & _ & _ & _ & _ & c1 & w1 & d & E).
  rewrite Ec in Ac.
  destruct (backoff_wait_too_long b _ _ _ _ _ _ _ _ Ac Hc Ht E) as [Ho Hev].
  split; [exact Hev|]. split; [exact Ho|].
  exact (runs_timed_out c w run Hruns a Hin Ho).
Qed.

(** *** The circuit breaker client *)

Lemma select_best_selected c w :
  select_managed (fun i => wall (reads w + i)) (_managed_senders c)
  = Some (select_best wall c w).
Proof.
  unfold select_best.
  destruct (select_managed _ _) as [m|] eqn:E; [reflexivity|].
  apply (proj1 (select_managed_In _ _)) in E. discriminate.
Qed.

Abbreviation stands_still := (Notions.stands_still wall).

Lemma select_best_still c w now :
  stands_still w (2 * length (_managed_senders c)) now ->
  select_managed (fun _ => now) (_managed_senders c) = Some (select_best wall c w).
Proof.
  intro H. rewrite <- select_best_selected.
  apply select_managed_ext. intros j Hj. symmetry. now apply H.
Qed.

(** One attempt of the circuit breaker client, in full. *)
Lemma breaker_attempt_shape cb c w t o c1 w1 evs d :
  class c = CircuitBreakerMultiClient_ cb ->
  make_request' c w t = (o, c1, w1, evs, d) ->
  let n := length (_managed_senders c) in
  let checked := select_best wall c w in
  let w2 := add_reads (add_reads w (2 * n)) 1 in
  let attempted := _sender (select_best wall c w2) in
  (is_circuit_open (wall (reads w + 2 * n)) checked = true /\
   o = BreakerOpen /\ evs = [] /\ _managed_senders c1 = _managed_senders c) \/
  (is_circuit_open (wall (reads w + 2 * n)) checked = false /\
   evs = [EvSend attempted] /\
   ((o = TimedOut /\ _managed_senders c1 = _managed_senders c) \/
    (o = Completed HTTP_OK /\
     _managed_senders c1
     = map (on_sender (_sender checked) record_success) (_managed_senders c)) \/
    (exists result, o = Completed result /\ result <> HTTP_OK /\
     _managed_senders c1
     = map (on_sender (_sender checked)
              (record_failure (wall (reads w + 2 * n + 1 + 2 * n))))
           (_managed_senders c)))).
Proof.
  intros Ec H n checked w2 attempted.
  unfold _make_request in H. rewrite Ec in H.
  unfold CircuitBreaker_make_request in H.
  unfold _select_sender in H at 1. rewrite Ec in H.
  fold checked in H. fold n in H. simpl reads in H.
  destruct (is_circuit_open _ _).
  { left. injection H as <- <- _ <- _. repeat split. }
  right. split; [reflexivity|].
  unfold Client_make_request, _select_sender in H.
  cbn [class set_sender] in H. rewrite Ec in H.
  change (select_best wall (set_sender c (_sender checked))
            (add_reads (add_reads w (2 * n)) 1))
    with (select_best wall c w2) in H.
  fold attempted in H.
  change (length (_managed_senders (set_sender c (_sender checked)))) with n in H.
  destruct (Qltb _ t).
  - match type of H with context [status ?r =? HTTP_OK] =>
      revert H; destruct (Z.eqb_spec (status r) HTTP_OK) as [Eok|Eok]; intro H
    end.
    + injection H as <- <- _ <- _. split; [reflexivity|].
      right. left. split; [f_equal; exact Eok|reflexivity].
    + injection H as <- <- _ <- _. split; [reflexivity|].
      right. right. eexists. split; [reflexivity|]. split; [exact Eok|].
      reflexivity.
  - injection H as <- <- _ <- _. split; [reflexivity|]. left. split; reflexivity.
Qed.

(** X22: CIRCUIT_BREAKER_OPEN means that there was nowhere to send: the
    attempt that raised it sent nothing, and when the clock stood still
    while it selected and checked, every sender of the client was open. *)
Theorem breaker_open_means_all_open (cb : CircuitBreakerStrategy) (c : Client)
  (w : World) :
  class c = CircuitBreakerMultiClient_ cb ->
  exists run,
    request' c w = Some run /\
    (r_result run = Raised CIRCUIT_BREAKER_OPEN ->
     exists a, In a (r_log run) /\ a_events a = [] /\
       forall now,
         (forall i, (i <= 2 * length (_managed_senders (a_client a)))%nat ->
                    wall (reads (a_world a) + i) = now) ->
         forall m, In m (_managed_senders (a_client a)) ->
                   is_circuit_open now m = true).
Proof.
  intro Ec.
  destruct (request_runs Payload send wall payload c w) as (run & Hr & Hruns).
  exists run. split; [exact Hr|].
  intro Hopen.
  apply (runs_breaker_open_iff c w run Hruns) in Hopen.
  destruct Hopen as (a & Hin & Ho). exists a. split; [exact Hin|].
  destruct (In_nth_error _ _ Hin) as [i Hn].
  destruct (runs_log Payload send wall payload c w run Hruns i a Hn)
    as (Ac & _ & _ & _ & _ & c1 & w1 & d & E).
  rewrite Ec in Ac.
  destruct (breaker_attempt_shape cb _ _ _ _ _ _ _ _ Ac E)
    as [(Hc & _ & Hev & _)|(_ & _ & [(Ho' & _)|[(Ho' & _)|(r & Ho' & _)]])];
    try congruence.
  split; [exact Hev|].
  intros now Hstill m Hm.
  rewrite (Hstill _ (Nat.le_refl _)) in Hc.
  assert (Hsel : select_managed (fun _ => now) (_managed_senders (a_client a))
                 = Some (select_best wall (a_client a) (a_world a))).
  { apply select_best_still. intros j Hj. apply Hstill. lia. }
  destruct (select_managed_best now _ _ Hsel) as [_ Hbest].
  destruct (Hbest m Hm) as (H1 & _). now apply H1.
Qed.

(** X23: the circuit breaker client does not send to a sender whose circuit
    is open: when the clock stood still through the selections of an
    attempt, the sender of its send is one that was closed then, and one
    that [_select_sender] prefers. *)
Theorem breaker_sends_to_closed (cb : CircuitBreakerStrategy) (c : Client)
  (w : World) :
  class c = CircuitBreakerMultiClient_ cb ->
  exists run,
    request' c w = Some run /\
    forall a s now,
      In a (r_log run) -> In (EvSend s) (a_events a) ->
      (forall i, (i <= 4 * length (_managed_senders (a_client a)))%nat ->
                 wall (reads (a_world a) + i) = now) ->
      exists m, In m (_managed_senders (a_client a)) /\ _sender m = s /\
                is_circuit_open now m = false /\
                select_managed (fun _ => now) (_managed_senders (a_client a))
                  = Some m.
Proof.
  intro Ec.
  destruct (request_runs Payload send wall payload c w) as (run & Hr & Hruns).
  exists run. split; [exact Hr|].
  intros a s now Hin Hs Hstill.
  destruct (In_nth_error _ _ Hin) as [i Hn].
  destruct (runs_log Payload send wall payload c w run Hruns i a Hn)
    as (Ac & _ & _ & _ & _ & c1 & w1 & d & E).
  rewrite Ec in Ac.
  set (n := length (_managed_senders (a_client a))) in *.
  assert (Hsel : select_managed (fun _ => now) (_managed_senders (a_client a))
                 = Some (select_best wall (a_client a) (a_world a))).
  { apply select_best_still. intros j Hj. apply Hstill. fold n in Hj |- *. lia. }
  assert (Hsel2 : select_managed (fun _ => now) (_managed_senders (a_client a))
                  = Some (select_best wall (a_client a)
                            (add_reads (add_reads (a_world a) (2 * n)) 1))).
  { apply select_best_still. intros j Hj. fold n in Hj.
    unfold add_reads. cbn [reads].
    replace (reads (a_world a) + 2 * n + 1 + j)%nat
      with (reads (a_world a) + (2 * n + 1 + j))%nat by lia.
    apply Hstill. lia. }
  destruct (breaker_attempt_shape cb _ _ _ _ _ _ _ _ Ac E)
    as [(_ & _ & Hev & _)|(Hc & Hev & _)]; fold n in Hev.
  { rewrite Hev in Hs. destruct Hs. }
  fold n in Hc. rewrite Hev in Hs. destruct Hs as [Hs|[]]. injection Hs as <-.
  rewrite (Hstill (2 * n)%nat) in Hc by lia.
  assert (Esame : select_best wall (a_client a)
                    (add_reads (add_reads (a_world a) (2 * n)) 1)
                  = select_best wall (a_client a) (a_world a)) by congruence.
  exists (select_best wall (a_client a) (a_world a)).
  split; [exact (proj2 (select_managed_In _ _) _ Hsel)|].
  split; [exact (f_equal _sender (eq_sym Esame))|].
  split; [exact Hc|exact Hsel].
Qed.

(** *** The health of the senders through a call *)

Lemma select_sender_managed c w s c1 w1 :
  _select_sender wall c w = (s, c1, w1) ->
  _managed_senders c1 = _managed_senders c.
Proof.
  unfold _select_sender. intro H.
  destruct (class c); injection H as _ <- _; reflexivity.
Qed.

Lemma Client_make_request_managed c w t u o c1 w1 evs d :
  Client_make_request Payload send wall payload c w t u = (o, c1, w1, evs, d) ->
  _managed_senders c1 = _managed_senders c.
Proof.
  unfold Client_make_request. intro H.
  destruct (_select_sender wall c w) as [[s c'] w'] eqn:E.
  apply select_sender_managed in E.
  destruct (Qltb _ _); injection H as _ <- _ _ _; exact E.
Qed.

(** An attempt leaves the dictionary as it was, or it is a completed
    attempt of the circuit breaker client and made one call of
    [record_success] or [record_failure] on one sender. *)
Lemma make_request_managed c w t o c1 w1 evs d :
  make_request' c w t = (o, c1, w1, evs, d) ->
  _managed_senders c1 = _managed_senders c \/
  ((exists result, o = Completed result) /\
   exists s f,
     (f = record_success \/ exists now, f = record_failure now) /\
     _managed_senders c1 = map (on_sender s f) (_managed_senders c)).
Proof.
  intro H. destruct (class c) eqn:Ec.
  - left. unfold _make_request in H. rewrite Ec in H.
    eapply Client_make_request_managed; eassumption.
  - left. unfold _make_request in H. rewrite Ec in H.
    unfold Backoff_make_request in H.
    destruct (0 <? _current_attempt c);
      [|eapply Client_make_request_managed; eassumption].
    destruct (Qltb _ t); [|injection H as _ <- _ _ _; reflexivity].
    destruct (Client_make_request _ _ _ _ _ _ _ _) as [[[[o' c'] w'] evs'] d'] eqn:E.
    injection H as _ <- _ _ _. eapply Client_make_request_managed; eassumption.
  - left. unfold _make_request in H. rewrite Ec in H.
    eapply Client_make_request_managed; eassumption.
  - left. unfold _make_request in H. rewrite Ec in H.
    unfold Hedging_make_request in H.
    destruct (_select_sender wall c w) as [[s c'] w'] eqn:E.
    apply select_sender_managed in E.
    destruct (Qltb (latency _) (total_seconds _)).
    + destruct (Qltb _ t); injection H as _ <- _ _ _; exact E.
    + destruct (Qltb _ t); [|injection H as _ <- _ _ _; exact E].
      destruct (first_completed _ _) as [t' r'].
      destruct (Qltb t' t); injection H as _ <- _ _ _; exact E.
  - destruct (breaker_attempt_shape cb _ _ _ _ _ _ _ _ Ec H)
      as [(_ & _ & _ & Hm)|(_ & _ & [(_ & Hm)|[(Ho & Hm)|(r & Ho & _ & Hm)]])].
    + now left.
    + now left.
    + right. split; [eauto|]. eexists. exists record_success.
      split; [now left|exact Hm].
    + right. split; [eauto|]. eexists. eexists.
      split; [right; eexists; reflexivity|exact Hm].
Qed.

Lemma make_request_unrecorded c w t o c1 w1 evs d :
  make_request' c w t = (o, c1, w1, evs, d) ->
  o = TimedOut \/ o = BreakerOpen ->
  _managed_senders c1 = _managed_senders c.
Proof.
  intros H Ho.
  destruct (make_request_managed _ _ _ _ _ _ _ _ H) as [E|((r & Hr) & _)];
    [exact E|].
  destruct Ho; congruence.
Qed.

(** The client a call ends with, when it ends in an attempt. *)
Lemma runs_last_client c w run :
  Runs' c w run ->
  forall a, In a (r_log run) -> retried c a = false ->
    exists w1 d,
      make_request' (a_client a) (a_world a) (total_seconds (remaining (a_client a)))
      = (a_outcome a, r_client run, w1, a_events a, d).
Proof.
  intro H. runs_cases H; simpl; intros a Hin Hr;
    try (destruct Hin as [<-|[]]; simpl; eauto; fail).
  - destruct Hin.
  - destruct Hin.
  - destruct Hin as [<-|Hin].
    { rewrite retried_attempt in Hr by assumption. discriminate. }
    rewrite <- (retried_same c _ a Es) in Hr. exact (IH a Hin Hr).
Qed.

(** X24: an attempt that timed out or met an open circuit records nothing:
    the history and the recovery time of every sender are after the call
    what they were when that attempt began. *)
Theorem unanswered_attempt_records_nothing (c : Client) (w : World) :
  exists run,
    request' c w = Some run /\
    forall a, In a (r_log run) ->
      a_outcome a = TimedOut \/ a_outcome a = BreakerOpen ->
      _managed_senders (r_client run) = _managed_senders (a_client a).
Proof.
  destruct (request_runs Payload send wall payload c w) as (run & Hr & Hruns).
  exists run. split; [exact Hr|].
  intros a Hin Ho.
  assert (Hret : retried c a = false)
    by (unfold retried; destruct Ho as [-> | ->]; reflexivity).
  destruct (runs_last_client c w run Hruns a Hin Hret) as (w1 & d & E).
  exact (make_request_unrecorded _ _ _ _ _ _ _ _ E Ho).
Qed.

Lemma runs_first c w run :
  Runs' c w run ->
  forall a, nth_error (r_log run) 0 = Some a -> a_client a = c /\ a_world a = w.
Proof.
  intro H. destruct H; simpl; intros a Hn; try discriminate;
    injection Hn as <-; split; reflexivity.
Qed.

(** From one attempt of a call to the next. *)
Lemma runs_next c w run :
  Runs' c w run ->
  forall i a a', nth_error (r_log run) i = Some a ->
    nth_error (r_log run) (S i) = Some a' ->
    exists result c1 d,
      make_request' (a_client a) (a_world a) (total_seconds (remaining (a_client a)))
      = (Completed result, c1, a_world a', a_events a, d) /\
      result <> HTTP_OK /\
      a_client a' = set_counters c1 (_current_attempt c1 + 1)
                      (_time_spent c1 + timedelta_of_seconds d).
Proof.
  intro H. runs_cases H; simpl; intros i a a' Hn Hn';
    try (destruct i as [|i]; [discriminate Hn'|destruct i; discriminate Hn]).
  destruct i as [|i].
    + injection Hn as <-. simpl in Hn'.
      destruct (runs_first _ _ _ Hrun a' Hn') as [-> ->].
      simpl. exists result, c1, d. repeat split; assumption.
    + exact (IH i a a' Hn Hn').
Qed.

(** X25: every attempt of the circuit breaker client that is retried
    records one failure, on the sender that the attempt selected and
    checked, and leaves the other senders alone: that is all that differs
    between the dictionary at one attempt of a call and at the next. *)
Theorem retried_attempt_records_one_failure (cb : CircuitBreakerStrategy)
  (c : Client) (w : World) :
  class c = CircuitBreakerMultiClient_ cb ->
  exists run,
    request' c w = Some run /\
    forall i a a',
      nth_error (r_log run) i = Some a ->
      nth_error (r_log run) (S i) = Some a' ->
      let n := length (_managed_senders (a_client a)) in
      let checked := _sender (select_best wall (a_client a) (a_world a)) in
      let now := wall (reads (a_world a) + 2 * n + 1 + 2 * n) in
      _managed_senders (a_client a')
      = map (on_sender checked (record_failure now))
            (_managed_senders (a_client a)).
Proof.
  intro Ec.
  destruct (request_runs Payload send wall payload c w) as (run & Hr & Hruns).
  exists run. split; [exact Hr|].
  intros i a a' Hn Hn' n checked now.
  destruct (runs_log Payload send wall payload c w run Hruns i a Hn)
    as (Ac & _).
  rewrite Ec in Ac.
  destruct (runs_next c w run Hruns i a a' Hn Hn') as (r & c1 & d & E & Hok & ->).
  change (_managed_senders (set_counters c1 (_current_attempt c1 + 1)
            (_time_spent c1 + timedelta_of_seconds d)))
    with (_managed_senders c1).
  destruct (breaker_attempt_shape cb _ _ _ _ _ _ _ _ Ac E)
    as [(_ & Ho & _)|(_ & _ & [(Ho & _)|[(Ho & _)|(r' & Ho & _ & Hm)]])];
    try discriminate.
  - injection Ho as ->. contradiction.
  - exact Hm.
Qed.

Lemma runs_invariant (P : Client -> Prop) :
  (forall c w t o c1 w1 evs d,
     P c -> make_request' c w t = (o, c1, w1, evs, d) -> P c1) ->
  (forall c x y, P c -> P (set_counters c x y)) ->
  forall c w run, Runs' c w run -> P c ->
    P (r_client run) /\ forall a, In a (r_log run) -> P (a_client a).
Proof.
  intros Hstep Hset c w run H. runs_cases H; simpl; intro HP;
    try (split; [eauto|intros a [<-|[]]; exact HP]).
  - split; [exact HP|intros a []].
  - split; [exact HP|intros a []].
  - destruct IH as [I1 I2]; [eauto|].
    split; [exact I1|]. intros a [<-|Hin]; [exact HP|now apply I2].
Qed.

Lemma on_sender_recorded s f m :
  (f = record_success \/ exists now, f = record_failure now) ->
  _sender (on_sender s f m) = _sender m /\
  _strategy (on_sender s f m) = _strategy m /\
  ((length (_last_results m) <= window_size (_strategy m))%nat ->
   (length (_last_results (on_sender s f m))
      <= window_size (_strategy (on_sender s f m)))%nat).
Proof.
  intro Hf. unfold on_sender. destruct (_sender m =? s)%nat; [|repeat split; auto].
  destruct Hf as [->|[now ->]].
  - repeat split. intro Hb. exact (record_window m Record_success Hb).
  - change (record_failure now m) with (record m (Record_failure now)).
    rewrite record_strategy. split; [|split; [reflexivity|apply record_window]].
    simpl. unfold record_failure. destruct (Qle_bool _ _); reflexivity.
Qed.

Lemma dictionary_kept_step c0 c w t o c1 w1 evs d :
  dictionary_kept c0 c -> make_request' c w t = (o, c1, w1, evs, d) ->
  dictionary_kept c0 c1.
Proof.
  intros (K1 & K2 & K3) H. unfold dictionary_kept, bounded in *.
  destruct (make_request_managed _ _ _ _ _ _ _ _ H)
    as [E|(_ & s & f & Hf & E)]; rewrite E; [repeat split; assumption|].
  rewrite !map_map. repeat split.
  - rewrite <- K1. apply map_ext. intro m. now destruct (on_sender_recorded s f m Hf).
  - rewrite <- K2. apply map_ext. intro m.
    now destruct (on_sender_recorded s f m Hf) as (_ & ? & _).
  - rewrite Forall_map. eapply Forall_impl; [|exact K3].
    intros m Hb. now apply (on_sender_recorded s f m Hf).
Qed.

(** X26: a call keeps the dictionary of the senders in shape: the same
    senders in the same order, each with its strategy, and every history
    within its window, at every attempt and after the call, when it was so
    before. *)
Theorem dictionary_stays_in_shape (c : Client) (w : World) :
  bounded c ->
  exists run,
    request' c w = Some run /\
    forall c', c' = r_client run \/ (exists a, In a (r_log run) /\ c' = a_client a) ->
      map _sender (_managed_senders c') = map _sender (_managed_senders c) /\
      map _strategy (_managed_senders c') = map _strategy (_managed_senders c) /\
      bounded c'.
Proof.
  intro Hb.
  destruct (request_runs Payload send wall payload c w) as (run & Hr & Hruns).
  exists run. split; [exact Hr|].
  destruct (runs_invariant (dictionary_kept c)
              (dictionary_kept_step c)
              (fun c' x y K => K) c w run Hruns) as [I1 I2].
  { repeat split. exact Hb. }
  intros c' [->|(a & Hin & ->)]; [exact I1|exact (I2 a Hin)].
Qed.

(** *** One sender *)

Lemma single_sender_attempt c w t o c1 w1 evs d :
  class c = Client_ \/ (exists b, class c = BackoffClient_ b) ->
  make_request' c w t = (o, c1, w1, evs, d) ->
  sender c1 = sender c /\
  forall s, In (EvSend s) evs -> s = sender c.
Proof.
  assert (HC : forall c w t u o c1 w1 evs d,
    class c = Client_ \/ (exists b, class c = BackoffClient_ b) ->
    Client_make_request Payload send wall payload c w t u = (o, c1, w1, evs, d) ->
    sender c1 = sender c /\ evs = [EvSend (sender c)]).
  { clear. intros c w t u o c1 w1 evs d Hc H.
    unfold Client_make_request, _select_sender in H.
    assert (E : match class c with
                | Client_ | BackoffClient_ _ => (sender c, c, w)
                | MultiClient_ | HedgingMultiClient_ _ =>
                    (nth (_senders_cycle c mod length (_senders c)) (_senders c)
                       (senders_first c),
                     set_sender (set_cycle c (S (_senders_cycle c)))
                       (nth (_senders_cycle c mod length (_senders c))
                          (_senders c) (senders_first c)), w)
                | CircuitBreakerMultiClient_ _ =>
                    (_sender (select_best wall c w),
                     set_sender c (_sender (select_best wall c w)),
                     add_reads w (2 * length (_managed_senders c)))
                end = (sender c, c, w))
      by (destruct Hc as [-> |[b ->]]; reflexivity).
    rewrite E in H.
    destruct (Qltb _ t); injection H as _ <- _ <- _; split; reflexivity. }
  intros Hc H. unfold _make_request in H.
  destruct Hc as [Ec|[b Ec]]; rewrite Ec in H.
  - destruct (HC _ _ _ _ _ _ _ _ _ (or_introl Ec) H) as [E ->].
    split; [exact E|]. intros s [Hs|[]]. now injection Hs as <-.
  - unfold Backoff_make_request in H.
    assert (Hc : class c = Client_ \/ (exists b, class c = BackoffClient_ b))
      by (right; now exists b).
    destruct (0 <? _current_attempt c).
    + destruct (Qltb _ t).
      * destruct (Client_make_request _ _ _ _ _ _ _ _) as [[[[o' c'] w'] evs'] d'] eqn:E.
        destruct (HC _ _ _ _ _ _ _ _ _ Hc E) as [E1 ->].
        injection H as _ <- _ <- _. split; [exact E1|].
        intros s [Hs|[Hs|[]]]; [discriminate|now injection Hs as <-].
      * injection H as _ <- _ <- _. split; [reflexivity|].
        intros s [Hs|[]]. discriminate.
    + destruct (HC _ _ _ _ _ _ _ _ _ Hc H) as [E ->].
      split; [exact E|]. intros s [Hs|[]]. now injection Hs as <-.
Qed.

(** X30: a [Client] and a [BackoffClient] have one sender and keep it:
    every send of a call goes to [self._sender], and the sender is the
    same after the call. *)
Theorem single_sender_is_kept (c : Client) (w : World) :
  class c = Client_ \/ (exists b, class c = BackoffClient_ b) ->
  exists run,
    request' c w = Some run /\
    sender (r_client run) = sender c /\
    forall s, In (EvSend s) (run_events run) -> s = sender c.
Proof.
  intro Hc.
  destruct (request_runs Payload send wall payload c w) as (run & Hr & Hruns).
  exists run. split; [exact Hr|].
  set (P := fun c' : Client => class c' = class c /\ sender c' = sender c).
  destruct (runs_invariant P) with (c := c) (w := w) (run := run) as [I1 I2];
    try assumption.
  - intros c0 w0 t o c1 w1 evs d [P1 P2] E.
    assert (Hc0 : class c0 = Client_ \/ (exists b, class c0 = BackoffClient_ b))
      by (rewrite P1; exact Hc).
    destruct (single_sender_attempt _ _ _ _ _ _ _ _ Hc0 E) as [E1 _].
    destruct (make_request_same _ _ _ _ _ _ _ _ _ _ _ _ E) as (Ec & _).
    split; congruence.
  - intros c0 x y K. exact K.
  - split; reflexivity.
  - split; [exact (proj2 I1)|].
    intros s Hs. unfold run_events in Hs. apply in_flat_map in Hs.
    destruct Hs as (a & Hin & Hs).
    destruct (I2 a Hin) as [P1 P2].
    destruct (In_nth_error _ _ Hin) as [i Hn].
    destruct (runs_log Payload send wall payload c w run Hruns i a Hn)
      as (_ & _ & _ & _ & _ & c1 & w1 & d & E).
    assert (Hca : class (a_client a) = Client_
                  \/ (exists b, class (a_client a) = BackoffClient_ b))
      by (rewrite P1; exact Hc).
    destruct (single_sender_attempt _ _ _ _ _ _ _ _ Hca E) as [_ Hall].
    rewrite <- P2. now apply Hall.
Qed.

(** *** The construction of a client *)

Lemma dedup_spec l : forall seen,
  NoDup (dedup seen l) /\
  forall s, In s (dedup seen l) <-> In s l /\ ~ In s seen.
Proof.
  induction l as [|x l IH]; intro seen; simpl.
  - split; [constructor|]. intro s. tauto.
  - destruct (existsb (Nat.eqb x) seen) eqn:E.
    + destruct (IH seen) as [N I]. split; [exact N|].
      apply existsb_exists in E. destruct E as (y & Hy & Exy).
      apply Nat.eqb_eq in Exy. subst y.
      intro s. rewrite I. split; [tauto|].
      intros [[->|Hin] Hn]; [contradiction|tauto].
    + destruct (IH (x :: seen)) as [N I].
      assert (Hx : ~ In x seen).
      { intro Hin. assert (existsb (Nat.eqb x) seen = true); [|congruence].
        apply existsb_exists. exists x. split; [exact Hin|apply Nat.eqb_refl]. }
      split.
      * constructor; [|exact N]. rewrite I. simpl. tauto.
      * intro s. simpl. rewrite I. simpl. split.
        -- intros [<-|[Hin Hn]]; [tauto|tauto].
        -- intros [[<-|Hin] Hn]; [now left|].
           destruct (Nat.eq_dec x s) as [->|Hne]; [now left|right; tauto].
Qed.

(** X27: [create_multi_client] gives a fresh client: one [ManagedSender] for
    every sender and for no other, none twice, each with an empty history
    and the recovery time [datetime.min], and with the circuit breaker
    strategy when the strategy has one; the counters of the client are
    zero. *)
Theorem create_multi_client_is_fresh (st : ResilienceStrategy) (s0 : nat)
  (rest : list nat) :
  let c := create_multi_client st s0 rest in
  NoDup (map _sender (_managed_senders c)) /\
  (forall s, In s (map _sender (_managed_senders c)) <-> In s (s0 :: rest)) /\
  (forall m, In m (_managed_senders c) ->
     _last_results m = [] /\ _recover_at m = datetime_min /\
     forall cb, extra_strategy st = Some (CircuitBreaker cb) -> _strategy m = cb) /\
  bounded c /\
  _senders c = s0 :: rest /\ _current_attempt c = 0 /\ _time_spent c = 0.
Proof.
  intro c.
  set (cb0 := match extra_strategy st with
              | Some (CircuitBreaker cb) => cb
              | _ => no_breaker
              end).
  assert (Hm : _managed_senders c = map (init cb0) (s0 :: dedup [s0] rest))
    by reflexivity.
  assert (Hk : map _sender (_managed_senders c) = s0 :: dedup [s0] rest).
  { rewrite Hm, map_map. apply map_id. }
  destruct (dedup_spec rest [s0]) as [N I].
  split; [|split; [|split; [|split]]].
  - rewrite Hk. constructor; [|exact N]. rewrite I. simpl. tauto.
  - intro s. rewrite Hk. simpl. rewrite I. simpl. split.
    + tauto.
    + intros [<-|Hin]; [now left|].
      destruct (Nat.eq_dec s0 s) as [->|Hne]; [now left|right; tauto].
  - intros m Hin. rewrite Hm in Hin. apply in_map_iff in Hin.
    destruct Hin as (s & <- & _). repeat split.
    intros cb E. unfold cb0. simpl. now rewrite E.
  - unfold bounded. rewrite Hm. apply Forall_map. apply Forall_forall.
    intros s _. simpl. lia.
  - repeat split.
Qed.

(** *** The attempts of a call and the replies of the senders *)

Abbreviation all_fail' := (all_fail Payload send payload).

(** The rules of [Client.request] leave one run to a call. *)
Lemma runs_unique c w run1 :
  Runs' c w run1 -> forall run2, Runs' c w run2 -> run1 = run2.
Proof.
  intro H. runs_cases H; intros run2 H2; inversion H2; subst;
    try reflexivity; try lia; try congruence;
    try (match goal with
         | [ A : make_request' ?c ?w ?t = _, B : make_request' ?c ?w ?t = _ |- _ ] =>
             rewrite A in B; injection B; intros; subst
         end; try reflexivity; try congruence).
  f_equal. apply IH. assumption.
Qed.

Lemma fan_out_at ss : forall k r,
  In r (fan_out send payload k ss) ->
  exists s j, In s ss /\ (k <= j < k + length ss)%nat /\ r = send payload s j.
Proof.
  induction ss as [|s ss IH]; intros k r H; simpl in H; [contradiction|].
  destruct H as [H|H].
  - exists s, k. simpl. repeat split; [now left|lia|lia|now symmetry].
  - destruct (IH _ _ H) as (s' & j & Hin & Hj & E).
    exists s', j. simpl. repeat split; [now right|lia|lia|exact E].
Qed.

(** The result of a completed attempt is the status that a sender replied
    to one of the sends of the attempt. *)
Lemma make_request_reply c w t result c1 w1 evs d :
  make_request' c w t = (Completed result, c1, w1, evs, d) ->
  exists s k, In (EvSend s) evs /\ (sent w <= k < sent w + sends evs)%nat /\
              result = status (send payload s k).
Proof.
  assert (HC : forall c w t u c1 w1 evs d,
    Client_make_request Payload send wall payload c w t u
      = (Completed result, c1, w1, evs, d) ->
    exists s, evs = [EvSend s] /\ sent w1 = S (sent w) /\
              result = status (send payload s (sent w))).
  { clear. intros c w t u c1 w1 evs d H. unfold Client_make_request in H.
    destruct (_select_sender wall c w) as [[s c'] w'] eqn:Es.
    apply select_sender_same in Es. destruct Es as [_ Es].
    destruct (Qltb _ t); [|discriminate].
    injection H as <- _ <- <- _. exists s. rewrite Es. simpl.
    repeat split. lia. }
  assert (HS : forall s k,
    result = status (send payload s (sent k)) ->
    exists s0 k0, In (EvSend s0) [EvSend s] /\
                  (sent k <= k0 < sent k + sends [EvSend s])%nat /\
                  result = status (send payload s0 k0)).
  { clear. intros s k E. exists s, (sent k).
    split; [now left|]. split; [unfold sends; simpl; lia|exact E]. }
  unfold _make_request. intro H.
  destruct (class c) eqn:Ec.
  - destruct (HC _ _ _ _ _ _ _ _ H) as (s & -> & _ & E). now apply HS.
  - unfold Backoff_make_request in H.
    destruct (0 <? _current_attempt c).
    + destruct (Qltb _ t); [|discriminate].
      destruct (Client_make_request _ _ _ _ _ _ _ _) as [[[[o' c'] w'] evs'] d'] eqn:E.
      injection H as -> _ _ <- _.
      destruct (HC _ _ _ _ _ _ _ _ E) as (s & -> & _ & E').
      exists s, (sent w). split; [right; now left|].
      split; [unfold sends; simpl; lia|exact E'].
    + destruct (HC _ _ _ _ _ _ _ _ H) as (s & -> & _ & E). now apply HS.
  - destruct (HC _ _ _ _ _ _ _ _ H) as (s & -> & _ & E). now apply HS.
  - unfold Hedging_make_request in H.
    destruct (_select_sender wall c w) as [[s c'] w'] eqn:Es.
    apply select_sender_same in Es. destruct Es as [_ Es].
    destruct (Qltb (latency _) (total_seconds _)).
    + destruct (Qltb _ t); [|discriminate].
      injection H as <- _ _ <- _. apply HS. now rewrite Es.
    + destruct (Qltb _ t); [|discriminate].
      match type of H with context [first_completed ?b ?l] =>
        pose proof (first_completed_in l b) as Hin;
        destruct (first_completed b l) as [t' r'] end.
      destruct (Qltb t' t); [|discriminate].
      injection H as <- _ _ <- _.
      change (sends (EvSend s :: ?l)) with (S (sends l)).
      rewrite sends_map_EvSend.
      destruct Hin as [Hin|Hin].
      * injection Hin as _ ->. exists s, (sent w).
        split; [now left|]. split; [lia|now rewrite Es].
      * apply in_map_iff in Hin. destruct Hin as (r0 & E0 & Hin).
        apply fan_out_at in Hin. destruct Hin as (s0 & j & Hs0 & Hj & ->).
        injection E0 as _ <-. simpl in Hj. rewrite Es in Hj.
        exists s0, j. split; [|split; [lia|reflexivity]].
        right. apply in_map. exact Hs0.
  - unfold CircuitBreaker_make_request in H.
    destruct (_select_sender wall c w) as [[s c'] w'] eqn:Es.
    apply select_sender_same in Es. destruct Es as [_ Es].
    destruct (is_circuit_open _ _); [discriminate|].
    destruct (Client_make_request _ _ _ _ _ _ _ _) as [[[[o' c''] w''] evs'] d'] eqn:E.
    destruct o'; [|discriminate..].
    assert (result0 = result /\ evs' = evs) as [-> ->]
      by (destruct (result0 =? HTTP_OK); injection H as -> _ _ -> _; now split).
    destruct (HC _ _ _ _ _ _ _ _ E) as (s0 & -> & _ & E').
    simpl in E'. rewrite Es in E'. now apply HS.
Qed.

(** A call without an attempt had no attempt left or no budget left; a call
    that finds both makes its first attempt from the client and the world
    it was given. *)
Lemma runs_begin c w run :
  Runs' c w run ->
  (r_log run = [] ->
   max_retries (strategy c) <= _current_attempt c \/ remaining c <= 0) /\
  (_current_attempt c < max_retries (strategy c) -> 0 < remaining c ->
   exists a rest c1 w1 d,
     r_log run = a :: rest /\ a_client a = c /\ a_world a = w /\
     make_request' c w (total_seconds (remaining c))
       = (a_outcome a, c1, w1, a_events a, d)).
Proof.
  intro H. destruct H; simpl; (split; [try discriminate; intros _; lia|]);
    intros Hm' Hb'; try lia;
    eexists; eexists; exists c1, w1, d;
    (split; [reflexivity|]); repeat split; assumption.
Qed.

(** An attempt that completes with a status of [fast_errors] is the only
    attempt of the call it begins. *)
Lemma runs_fast_first c w run result c1 w1 evs d :
  Runs' c w run ->
  _current_attempt c < max_retries (strategy c) -> 0 < remaining c ->
  make_request' c w (total_seconds (remaining c))
    = (Completed result, c1, w1, evs, d) ->
  In result (fast_errors (strategy c)) ->
  run = raise NON_RETRYABLE_ERROR c1 w1 [attempt c w evs (Completed result)].
Proof.
  intros H Hm Hb E Hin.
  apply (runs_unique c w run H).
  eapply runs_fast_error; try eassumption. now apply is_fast_In.
Qed.

(** When LATENCY_BUDGET_EXHAUSTED is raised: an attempt was cut by the
    timeout, or the budget was used up with attempts still left. *)
Lemma runs_latency_iff c w run :
  Runs' c w run ->
  (r_result run = Raised LATENCY_BUDGET_EXHAUSTED <->
   (exists a, In a (r_log run) /\ a_outcome a = TimedOut) \/
   (_current_attempt (r_client run) < max_retries (strategy c) /\
    remaining (r_client run) <= 0)).
Proof.
  intro H. runs_cases H; simpl.
  - split; [discriminate|]. intros [(a & [] & _)|[L _]]. lia.
  - split; [intros _; right; now split|reflexivity].
  - split; [intros _; left|reflexivity].
    eexists. split; [now left|reflexivity].
  - split; [discriminate|].
    intros [(a & [<-|[]] & Ho)|[_ L]]; [discriminate|].
    unfold remaining in *. rewrite Es, Et in L. lia.
  - split; [discriminate|].
    intros [(a & [<-|[]] & Ho)|[_ L]]; [discriminate|].
    unfold remaining in *. rewrite Es, Et in L. lia.
  - split; [discriminate|].
    intros [(a & [<-|[]] & Ho)|[_ L]]; [discriminate|].
    unfold remaining in *. rewrite Es, Et in L. lia.
  - simpl in IH. rewrite Es in IH. rewrite IH. split.
    + intros [(a & Hin & Ho)|L]; [left|now right].
      exists a. split; [now right|exact Ho].
    + intros [(a & [<-|Hin] & Ho)|L]; [discriminate| |now right].
      left. now exists a.
Qed.

(** A call that the budget ends before any attempt is cut made fewer
    attempts than were left. *)
Lemma runs_fewer c w run :
  Runs' c w run ->
  r_result run = Raised LATENCY_BUDGET_EXHAUSTED ->
  (forall a, In a (r_log run) -> a_outcome a <> TimedOut) ->
  Z.of_nat (length (r_log run)) < max_retries (strategy c) - _current_attempt c.
Proof.
  intro H. runs_cases H; simpl; intros Hr Hno; try discriminate.
  - lia.
  - exfalso. eapply Hno; [now left|reflexivity].
  - simpl in IH. rewrite Es, Ea in IH.
    assert (I := IH Hr (fun a Hin => Hno a (or_intror Hin))). lia.
Qed.

(** When a hedged attempt fans out: the main sender has not answered
    within [hedging_delay], and that delay is over before the budget. *)
Lemma hedging_attempt_events h c w t o c1 w1 evs d :
  class c = HedgingMultiClient_ h ->
  make_request' c w t = (o, c1, w1, evs, d) ->
  let main := cycle_at c (_senders_cycle c) in
  evs = if negb (Qltb (latency (send payload main (sent w)))
                      (total_seconds (hedging_delay h)))
           && Qltb (Qmax0 (total_seconds (hedging_delay h))) t
        then EvSend main
             :: map EvSend (filter (fun s => negb (s =? main)%nat) (_senders c))
        else [EvSend main].
Proof.
  intros Ec H main. unfold _make_request in H. rewrite Ec in H.
  unfold Hedging_make_request in H.
  rewrite select_sender_rotates in H by (right; now exists h).
  fold main in H.
  destruct (Qltb (latency _) (total_seconds _)); simpl.
  - destruct (Qltb _ t); now injection H as _ _ _ <- _.
  - destruct (Qltb _ t).
    + destruct (first_completed _ _) as [t' r'].
      destruct (Qltb t' t); now injection H as _ _ _ <- _.
    + now injection H as _ _ _ <- _.
Qed.

Lemma sends_flat_map (n : nat) (log : list Attempt) :
  (forall a, In a log -> (sends (a_events a) <= n)%nat) ->
  (sends (flat_map a_events log) <= length log * n)%nat.
Proof.
  induction log as [|a log IH]; intro H; [unfold sends; simpl; lia|].
  simpl. unfold sends in *. rewrite filter_app, length_app.
  pose proof (H a (or_introl eq_refl)).
  pose proof (IH (fun a' Hin => H a' (or_intror Hin))). lia.
Qed.


(** C4: a call of [request] makes the attempts that the rules of
    [Client.request] give, and it raises NON_RETRYABLE_ERROR if and only if
    one of them ended with an outcome in [fast_errors]. The outcome of a
    completed attempt is the status that a sender replied to one of the
    sends of that attempt; so a call to senders that never reply with a
    status of [fast_errors] never raises NON_RETRYABLE_ERROR, and a call
    whose first attempt is answered with such a status raises it after that
    one attempt. An attempt that ended so is the last of the call, and
    [_current_attempt] and [_time_spent] are after the call what they were
    when that attempt began. *)
Theorem request_non_retryable (c : Client) (w : World) :
  exists run,
    request' c w = Some run /\
    Runs' c w run /\
    (r_result run = Raised NON_RETRYABLE_ERROR <->
     exists a result, In a (r_log run) /\ a_outcome a = Completed result /\
                      In result (fast_errors (strategy c))) /\
    (forall a result,
       In a (r_log run) -> a_outcome a = Completed result ->
       exists s k,
         In (EvSend s) (a_events a) /\
         (sent (a_world a) <= k < sent (a_world a) + sends (a_events a))%nat /\
         result = status (send payload s k)) /\
    ((forall s k, ~ In (status (send payload s k)) (fast_errors (strategy c))) ->
     r_result run <> Raised NON_RETRYABLE_ERROR) /\
    (forall result c1 w1 evs d,
       _current_attempt c < max_retries (strategy c) -> 0 < remaining c ->
       make_request' c w (total_seconds (remaining c))
         = (Completed result, c1, w1, evs, d) ->
       In result (fast_errors (strategy c)) ->
       run = raise NON_RETRYABLE_ERROR c1 w1 [attempt c w evs (Completed result)]) /\
    (forall a result,
       In a (r_log run) -> a_outcome a = Completed result ->
       In result (fast_errors (strategy c)) ->
       (exists before, r_log run = before ++ [a]) /\
       _current_attempt (r_client run) = _current_attempt (a_client a) /\
       _time_spent (r_client run) = _time_spent (a_client a)).
Proof.
  destruct (request_runs Payload send wall payload c w) as (run & Hr & Hruns).
  exists run. split; [exact Hr|]. split; [exact Hruns|].
  destruct (runs_non_retryable Payload send wall payload c w run Hruns)
    as [Hiff Hlast].
  assert (Hreply : forall a result,
       In a (r_log run) -> a_outcome a = Completed result ->
       exists s k,
         In (EvSend s) (a_events a) /\
         (sent (a_world a) <= k < sent (a_world a) + sends (a_events a))%nat /\
         result = status (send payload s k)).
  { intros a result Hin Ho. destruct (In_nth_error _ _ Hin) as [i Hn].
    destruct (runs_log Payload send wall payload c w run Hruns i a Hn)
      as (_ & _ & _ & _ & _ & c1 & w1 & d & E).
    rewrite Ho in E. exact (make_request_reply _ _ _ _ _ _ _ _ E). }
  split; [exact Hiff|]. split; [exact Hreply|]. split.
  { intros Hnone R. apply Hiff in R. destruct R as (a & result & Hin & Ho & Hf).
    destruct (Hreply a result Hin Ho) as (s & k & _ & _ & ->).
    exact (Hnone s k Hf). }
  split; [|exact Hlast].
  intros result c1 w1 evs d Hm Hb E Hf.
  exact (runs_fast_first c w run result c1 w1 evs d Hruns Hm Hb E Hf).
Qed.

End RequestCoverage.

(** ** The backend *)

Section BackendCoverage.
Import Backend.

Lemma handle_keeps_image g r :
  IMAGE_BYTES (fst (handle g r)) = IMAGE_BYTES g /\
  IMAGE_MIMETYPE (fst (handle g r)) = IMAGE_MIMETYPE g.
Proof. destruct r; split; reflexivity. Qed.

Lemma serve_keeps_image rs : forall g,
  IMAGE_BYTES (serve g rs) = IMAGE_BYTES g /\
  IMAGE_MIMETYPE (serve g rs) = IMAGE_MIMETYPE g.
Proof.
  induction rs as [|r rs IH]; intro g; [split; reflexivity|].
  change (serve g (r :: rs)) with (serve (fst (handle g r)) rs).
  destruct (IH (fst (handle g r))) as [-> ->]. apply handle_keeps_image.
Qed.

Lemma serve_no_switch rs : forall g,
  forallb (fun r => negb (switches r)) rs = true ->
  degraded (serve g rs) = degraded g.
Proof.
  induction rs as [|r rs IH]; intros g H; [reflexivity|].
  simpl in H. apply andb_true_iff in H. destruct H as [Hr Hrs].
  change (serve g (r :: rs)) with (serve (fst (handle g r)) rs).
  rewrite (IH _ Hrs). destruct r; try reflexivity; discriminate.
Qed.

Lemma serve_app g rs rs' : serve g (rs ++ rs') = serve (serve g rs) rs'.
Proof. unfold serve. apply fold_left_app. Qed.

(** X28: what [/get] answers is decided by the last switch. After any
    requests of which the last to a switch was to [/degrade/on], [/get]
    answers 503; when it was to [/degrade/off], [/get] answers 200 with the
    image and the mimetype that the module holds, whatever was served
    before. *)
Theorem get_follows_the_last_switch (g : Globals) (before after : list Route) :
  forallb (fun r => negb (switches r)) after = true ->
  code (cat (serve g (before ++ route_degrade_on :: after))) = 503 /\
  cat (serve g (before ++ route_degrade_off :: after))
  = {| body := Bytes (IMAGE_BYTES g);
       mimetype := Some (IMAGE_MIMETYPE g); code := 200 |}.
Proof.
  intro H. split.
  - rewrite serve_app.
    change (serve (serve g before) (route_degrade_on :: after))
      with (serve (set_degraded (serve g before) true) after).
    unfold cat. rewrite (serve_no_switch after _ H). reflexivity.
  - rewrite serve_app.
    change (serve (serve g before) (route_degrade_off :: after))
      with (serve (set_degraded (serve g before) false) after).
    unfold cat. rewrite (serve_no_switch after _ H). simpl.
    destruct (serve_keeps_image after (set_degraded (serve g before) false))
      as [-> ->]. simpl.
    destruct (serve_keeps_image before g) as [-> ->]. reflexivity.
Qed.

(** X29: the image served is the image loaded. When [load_image] finds the
    file, every [/get] that is not refused, after whatever requests,
    carries the bytes of the file, under the mimetype guessed for it, or
    under the one held before when none was guessed; and without a file
    [load_image] fails. *)
Theorem get_serves_the_loaded_image (g : Globals) (content : String.string)
  (mtype : option String.string) (rs : list Route) :
  load_image g None mtype = None /\
  exists g',
    load_image g (Some content) mtype = Some g' /\
    (degraded (serve g' rs) = false ->
     cat (serve g' rs)
     = {| body := Bytes (Some content);
          mimetype := Some (match mtype with
                            | Some (String.String a m) => String.String a m
                            | _ => IMAGE_MIMETYPE g
                            end);
          code := 200 |}).
Proof.
  split; [reflexivity|].
  eexists. split; [reflexivity|].
  intro Hd. unfold cat. rewrite Hd.
  match goal with |- context [serve ?g0 rs] =>
    destruct (serve_keeps_image rs g0) as [-> ->] end.
  reflexivity.
Qed.

End BackendCoverage.

(** ** Concrete runs, continued *)

Section CoverageRuns.
Import Breaker Dispatch Scenarios Notions.


Lemma request_non_retryable_witness :
  exists run,
    request unit (reply_after 400 (1 # 10)) still tt
      (create_client (plain 3 1000000 [400]) 0) fresh = Some run /\
    r_result run = Raised NON_RETRYABLE_ERROR /\
    sends (run_events run) = 1%nat /\
    _current_attempt (r_client run) = 0 /\ _time_spent (r_client run) = 0.
Proof.
  destruct (request_non_retryable unit (reply_after 400 (1 # 10)) still tt
              (create_client (plain 3 1000000 [400]) 0) fresh)
    as (run & Hr & _ & _ & _ & _ & Hfirst & _).
  exists run. split; [exact Hr|].
  rewrite (Hfirst 400 (create_client (plain 3 1000000 [400]) 0)
             {| sent := 1; reads := 0 |} [EvSend 0] (1 # 10)%Q).
  - repeat split.
  - simpl. lia.
  - vm_compute. reflexivity.
  - reflexivity.
  - left. reflexivity.
Defined.

Lemma first_failure_opens_witness :
  (failure_rate failed_at_0 == 1)%Q /\ _recover_at failed_at_0 = 2000000.
Proof.
  pose proof (first_failure_opens breaker 0 0) as H. cbv zeta in H.
  destruct H as (H1 & H2 & _); [simpl; lia|].
  split; [exact H1|]. apply H2. vm_compute. discriminate.
Defined.

Lemma select_managed_prefers_closed_and_reliable_witness :
  is_circuit_open 1500000 (init breaker 1) = false.
Proof.
  apply (proj1 (select_managed_prefers_closed_and_reliable 1500000
                  [failed_at_0; init breaker 1] (init breaker 1) eq_refl)
               (init breaker 1)).
  - right. left. reflexivity.
  - reflexivity.
Defined.

Lemma select_managed_tie_goes_to_last_witness :
  select_managed (fun _ => 0) [init breaker 0; init breaker 1; init breaker 2]
  = Some (init breaker 2).
Proof.
  apply (select_managed_tie_goes_to_last 0 (init breaker 0)
           [init breaker 1; init breaker 2]).
  intros m [<-|[<-|[]]]; repeat split; reflexivity.
Defined.

Lemma senders_taken_in_rotation_witness :
  exists run a rest,
    request unit (replies [(500, 1 # 10); (503, 1 # 10); (200, 1 # 10)]) still tt
      (create_multi_client (plain 3 5000000 [400]) 0 [1%nat; 2%nat]) fresh
    = Some run /\
    nth_error (r_log run) 1 = Some a /\ a_events a = EvSend 1 :: rest.
Proof.
  destruct (senders_taken_in_rotation unit
              (replies [(500, 1 # 10); (503, 1 # 10); (200, 1 # 10)]) still tt
              (create_multi_client (plain 3 5000000 [400]) 0 [1%nat; 2%nat]) fresh
              (or_introl eq_refl)) as (run & Hr & H).
  exists run.
  assert (Hr' := Hr). vm_compute in Hr'. injection Hr' as <-.
  destruct (H 1%nat _ eq_refl) as (rest & Hev).
  eexists. exists rest. split; [exact Hr|]. split; [reflexivity|exact Hev].
Defined.

Lemma hedged_attempt_sends_witness :
  exists run a,
    request unit (reply_after 504 (1 # 2)) still tt
      (create_multi_client (with_extra 1 300000 [] (Hedging hedge_50ms))
         0 [1%nat; 2%nat]) fresh
    = Some run /\
    nth_error (r_log run) 0 = Some a /\ (sends (a_events a) <= 3)%nat.
Proof.
  destruct (hedged_attempt_sends unit (reply_after 504 (1 # 2)) still tt
              hedge_50ms
              (create_multi_client (with_extra 1 300000 [] (Hedging hedge_50ms))
                 0 [1%nat; 2%nat]) fresh eq_refl) as (run & Hr & H).
  exists run.
  assert (Hr' := Hr). vm_compute in Hr'. injection Hr' as <-.
  destruct (H 0%nat _ eq_refl) as (_ & Hle).
  eexists. split; [exact Hr|]. split; [reflexivity|exact Hle].
Defined.

Lemma hedged_attempt_ends_with_earliest_witness :
  exists result c1 w1 evs d,
    _make_request unit (replies [(504, 1 # 2); (200, 1 # 10)]) still tt
      (create_multi_client (with_extra 1 5000000 [] (Hedging hedge_50ms))
         0 [1%nat]) fresh 5
    = (Completed result, c1, w1, evs, d) /\
    (d <= 1 # 2)%Q.
Proof.
  destruct (_make_request unit (replies [(504, 1 # 2); (200, 1 # 10)]) still tt
              (create_multi_client (with_extra 1 5000000 [] (Hedging hedge_50ms))
                 0 [1%nat]) fresh 5) as [[[[o c1] w1] evs] d] eqn:E.
  destruct o as [result| |]; [|vm_compute in E; discriminate E..].
  exists result, c1, w1, evs, d. split; [reflexivity|].
  exact (proj1 (hedged_attempt_ends_with_earliest unit
                  (replies [(504, 1 # 2); (200, 1 # 10)]) still tt hedge_50ms
                  (create_multi_client
                     (with_extra 1 5000000 [] (Hedging hedge_50ms)) 0 [1%nat])
                  fresh 5 result c1 w1 evs d eq_refl E)).
Defined.

Lemma only_backoff_client_waits_witness :
  exists run,
    request unit (reply_after 500 (1 # 10)) still tt
      (create_client (plain 3 1000000 [400]) 0) fresh = Some run /\
    forall a delay, In a (r_log run) -> ~ In (EvWait delay) (a_events a).
Proof.
  apply (only_backoff_client_waits unit (reply_after 500 (1 # 10)) still tt
           (create_client (plain 3 1000000 [400]) 0) fresh).
  intros b H. discriminate H.
Defined.

Lemma backoff_wait_over_budget_witness :
  exists run,
    request unit (reply_after 500 (1 # 10)) still tt
      (create_client
         (with_extra 5 500000 [400]
            (Backoff {| initial_delay := 200000; backoff_factor := 2 |})) 0)
      fresh = Some run /\
    r_result run = Raised LATENCY_BUDGET_EXHAUSTED.
Proof.
  destruct (backoff_wait_over_budget unit (reply_after 500 (1 # 10)) still tt
              {| initial_delay := 200000; backoff_factor := 2 |}
              (create_client
                 (with_extra 5 500000 [400]
                    (Backoff {| initial_delay := 200000; backoff_factor := 2 |})) 0)
              fresh eq_refl) as (run & Hr & H).
  exists run. split; [exact Hr|].
  vm_compute in Hr. injection Hr as <-.
  refine (proj2 (proj2 (H _ (or_intror (or_intror (or_introl eq_refl))) _ _))).
  - reflexivity.
  - vm_compute. discriminate.
Defined.

Lemma breaker_open_means_all_open_witness :
  exists run a,
    request unit (reply_after 500 (1 # 10)) still tt
      (create_multi_client (with_extra 3 5000000 [] (CircuitBreaker breaker)) 0 [])
      fresh = Some run /\
    In a (r_log run) /\ a_events a = [] /\
    forall m, In m (_managed_senders (a_client a)) -> is_circuit_open 0 m = true.
Proof.
  destruct (breaker_open_means_all_open unit (reply_after 500 (1 # 10)) still tt
              breaker
              (create_multi_client
                 (with_extra 3 5000000 [] (CircuitBreaker breaker)) 0 [])
              fresh eq_refl) as (run & Hr & H).
  exists run.
  assert (Hr' := Hr). vm_compute in Hr'. injection Hr' as <-.
  destruct (H eq_refl) as (a & Hin & Hev & Hall).
  exists a. split; [exact Hr|]. split; [exact Hin|]. split; [exact Hev|].
  exact (Hall 0 (fun i _ => eq_refl)).
Defined.

Lemma breaker_sends_to_closed_witness :
  exists run,
    request unit (reply_after 200 (1 # 10)) still tt
      (create_multi_client (with_extra 1 1000000 [] (CircuitBreaker breaker))
         0 [1%nat]) fresh = Some run /\
    forall a s, In a (r_log run) -> In (EvSend s) (a_events a) ->
      exists m, In m (_managed_senders (a_client a)) /\ _sender m = s /\
                is_circuit_open 0 m = false.
Proof.
  destruct (breaker_sends_to_closed unit (reply_after 200 (1 # 10)) still tt
              breaker
              (create_multi_client
                 (with_extra 1 1000000 [] (CircuitBreaker breaker)) 0 [1%nat])
              fresh eq_refl) as (run & Hr & H).
  exists run. split; [exact Hr|].
  intros a s Hin Hs.
  destruct (H a s 0 Hin Hs (fun i _ => eq_refl)) as (m & Hm & Hsm & Hc & _).
  exists m. repeat split; assumption.
Defined.

Lemma retried_attempt_records_one_failure_witness :
  exists run a a',
    request unit (reply_after 500 (1 # 10)) still tt
      (create_multi_client (with_extra 3 5000000 [] (CircuitBreaker breaker))
         0 [1%nat]) fresh = Some run /\
    nth_error (r_log run) 0 = Some a /\ nth_error (r_log run) 1 = Some a' /\
    _managed_senders (a_client a')
    = map (on_sender 1 (record_failure 0)) (_managed_senders (a_client a)).
Proof.
  destruct (retried_attempt_records_one_failure unit (reply_after 500 (1 # 10))
              still tt breaker
              (create_multi_client
                 (with_extra 3 5000000 [] (CircuitBreaker breaker)) 0 [1%nat])
              fresh eq_refl) as (run & Hr & H).
  exists run.
  assert (Hr' := Hr). vm_compute in Hr'. injection Hr' as <-.
  eexists. eexists. split; [exact Hr|]. split; [reflexivity|].
  split; [reflexivity|].
  exact (H 0%nat _ _ eq_refl eq_refl).
Defined.

Lemma dictionary_stays_in_shape_witness :
  exists run,
    request unit (reply_after 500 (1 # 10)) still tt
      (create_multi_client (with_extra 3 5000000 [] (CircuitBreaker breaker))
         0 [1%nat]) fresh = Some run /\
    bounded (r_client run).
Proof.
  destruct (dictionary_stays_in_shape unit (reply_after 500 (1 # 10)) still tt
              (create_multi_client
                 (with_extra 3 5000000 [] (CircuitBreaker breaker)) 0 [1%nat])
              fresh) as (run & Hr & H).
  { repeat constructor. }
  exists run. split; [exact Hr|].
  exact (proj2 (proj2 (H _ (or_introl eq_refl)))).
Defined.

Lemma single_sender_is_kept_witness :
  exists run,
    request unit (reply_after 500 (1 # 10)) still tt
      (create_client (plain 3 1000000 [400]) 7) fresh = Some run /\
    forall s, In (EvSend s) (run_events run) -> s = 7%nat.
Proof.
  destruct (single_sender_is_kept unit (reply_after 500 (1 # 10)) still tt
              (create_client (plain 3 1000000 [400]) 7) fresh
              (or_introl eq_refl)) as (run & Hr & _ & H).
  exists run. split; [exact Hr|exact H].
Defined.

Lemma get_follows_the_last_switch_witness :
  Backend.code
    (Backend.cat
       (Backend.serve Backend.loaded
          ([Backend.route_get]
             ++ Backend.route_degrade_on
             :: [Backend.route_index; Backend.route_get]))) = 503.
Proof.
  exact (proj1 (get_follows_the_last_switch Backend.loaded [Backend.route_get]
                  [Backend.route_index; Backend.route_get] eq_refl)).
Defined.

End CoverageRuns.
